(** * go-sigma-rule-engine: condition parser and rule set loader

    A shallow embedding of [pkg/condition/condition_parser.go] and of
    [pkg/sigma/sigma.go] (rule groups, rule set construction, the
    [Detection] map and its search expressions), with the properties the
    specification states about them.

    Conventions.
    - A Go [map[string]interface{}] is a [gmap string value]; a slice is a
      [list]; a channel drained by [range] is the list of the items it
      delivers, in order.
    - A Go function of the parser returning [(x, error)] returns an
      [outcome]; a run-time panic is a third outcome.  The loader of
      [sigma.go] keeps its pairs of results, inside [returned] where the
      call can panic.
    - The [Detection] map is a reference in Go.  Code that receives it runs
      in the monad [M], whose state is the content of that map.
    - Functions, tables and types that the two files use but do not define
      are fields of the classes [Externals] and [SigmaEnv].
    - [fmt.Printf] and [fmt.Println] debug output is not modelled. *)

From stdpp Require Import gmap strings list fin_maps.
From Stdlib Require Import ZArith Lia Ascii.

#[local] Set Warnings "-register-all".
Local Open Scope string_scope.
Local Open Scope list_scope.

(* ===================================================================== *)
(** ** Tokens *)
(* ===================================================================== *)

(** Modelled from the spec: the token kinds of section 3.  The enumeration
    is declared outside the two files.  A kind the parser names carries the
    parser's name ([TokUnsupp], [TokNil], [Identifier],
    [IdentifierWithWildcard], [IdentifierAll], [LitEof], [KeywordAnd],
    [KeywordOr], [KeywordNot], [StOne], [StAll]); the two parentheses carry
    the names of the specification; [TokBegin] stands for the kind that
    [previous] holds before any item was seen. *)
Inductive Token : Set :=
  | TokBegin
  | TokUnsupp
  | TokNil
  | Identifier
  | IdentifierWithWildcard
  | IdentifierAll
  | LitEof
  | LParen
  | RParen
  | KeywordAnd
  | KeywordOr
  | KeywordNot
  | StOne
  | StAll.

#[global] Instance Token_eq_dec : EqDecision Token.
Proof. solve_decision. Defined.

(** A lexed item: its kind [T] and its raw text [Val]. *)
Record Item : Set := mkItem { T : Token; Val : string }.

#[global] Instance Item_eq_dec : EqDecision Item.
Proof. solve_decision. Defined.

(** [type tokens []Item] *)
Abbreviation tokens := (list Item).

(** [tokens.contains]: some item of the stream has the given kind. *)
Definition contains (t : tokens) (tok : Token) : bool :=
  existsb (fun item => bool_decide (T item = tok)) t.

(* ===================================================================== *)
(** ** Errors *)
(* ===================================================================== *)

(** The error structs of [sigma.go]. *)
Inductive errval : Set :=
  | ErrMissingDetection
  | ErrEmptyDetection
  | ErrMissingCondition
  | ErrIncompleteDetection (Condition : string) (Keys : list string) (Msg : string)
  | ErrUnsupportedToken (Msg : string)
  | ErrWip
  | ErrInvalidRegex (Pattern : string) (Err : string).

(** An argument of a [fmt.Errorf] format string. *)
Inductive fmtarg : Set :=
  | ArgTok (t : Token)
  | ArgStr (s : string)
  | ArgStrs (l : list string).

(** A Go [error] value, told apart by its dynamic type: an error struct
    held by value, a pointer to one, the result of [fmt.Errorf] (the format
    and its arguments), or an error of a library (file system, YAML). *)
Inductive error : Set :=
  | ErrValue (e : errval)
  | ErrPointer (e : errval)
  | Errorf (format : string) (args : list fmtarg)
  | ErrLibrary (msg : string).

#[global] Instance errval_eq_dec : EqDecision errval.
Proof. solve_decision. Defined.

#[global] Instance fmtarg_eq_dec : EqDecision fmtarg.
Proof. solve_decision. Defined.

#[global] Instance error_eq_dec : EqDecision error.
Proof. solve_decision. Defined.

(** What a call produces: a value, a returned error, or a panic. *)
Inductive outcome (A : Type) : Type :=
  | Ret (a : A)
  | Fail (e : error)
  | Panic (msg : string).

Arguments Ret {A} a.
Arguments Fail {A} e.
Arguments Panic {A} msg.

(** What a call of the loader produces: the values it returns, or a
    panic. *)
Inductive returned (A : Type) : Type :=
  | Returned (a : A)
  | Panicked (msg : string).

Arguments Returned {A} a.
Arguments Panicked {A} msg.

(** The call returned a value and a nil error. *)
Definition succeeded {A} (o : outcome A) : bool :=
  match o with
  | Ret _ => true
  | _ => false
  end.

(* ===================================================================== *)
(** ** Detection and search expressions *)
(* ===================================================================== *)

(** The raw content of a detection entry ([interface{}] after YAML
    decoding): a scalar, a list, or a map from field names to content. *)
Inductive value : Set :=
  | VNil
  | VString (s : string)
  | VInt (n : Z)
  | VList (l : list value)
  | VMap (m : list (string * value)).

(** [type Detection map[string]interface{}] *)
Abbreviation Detection := (gmap string value).

Inductive SearchExprType : Set :=
  | ExprUnk
  | ExprSelection
  | ExprKeywords.

#[global] Instance SearchExprType_eq_dec : EqDecision SearchExprType.
Proof. solve_decision. Defined.

Record SearchExpr : Set := mkSearchExpr {
  Name : string;
  Type' : SearchExprType;
  Content : value
}.

(** [strings.HasPrefix(s.Name, "keyword")] decides the kind. *)
Definition Guess (s : SearchExpr) : SearchExpr :=
  if String.prefix "keyword" (Name s)
  then mkSearchExpr (Name s) ExprKeywords (Content s)
  else mkSearchExpr (Name s) ExprSelection (Content s).

(** Computations that hold a reference to the detection map. *)
Definition M (A : Type) : Type := Detection -> Detection * outcome A.

Definition ret {A} (a : A) : M A := fun d => (d, Ret a).
Definition fail {A} (e : error) : M A := fun d => (d, Fail e).
Definition panic {A} (msg : string) : M A := fun d => (d, Panic msg).

Definition bind {A B} (m : M A) (k : A -> M B) : M B :=
  fun d =>
    match m d with
    | (d', Ret a) => k a d'
    | (d', Fail e) => (d', Fail e)
    | (d', Panic msg) => (d', Panic msg)
    end.

Notation "'do' x <- m ; k" := (bind m (fun x => k))
  (at level 10, x name, m at level 100, k at level 200).

(** [d[key]] with the comma-ok form: a read of the map. *)
Definition mapindex (key : string) : M (option value) :=
  fun d => (d, Ret (d !! key)).

(** [for k, v := range d]: a read of all entries.  Go leaves the order
    unspecified; the model takes the order of [map_to_list]. *)
Definition range : M (list (string * value)) :=
  fun d => (d, Ret (map_to_list d)).

(** [Detection.Get]: the entry under [key] as a guessed expression, or nil. *)
Definition Get (key : string) : M (option SearchExpr) :=
  do val <- mapindex key;
  match val with
  | Some v => ret (Some (Guess (mkSearchExpr key ExprUnk v)))
  | None => ret None
  end.

(** [Detection.Fields]: the expressions sent on the channel, one for every
    key other than ["condition"]. *)
Definition Fields : M (list SearchExpr) :=
  do kvs <- range;
  ret (omap (fun kv : string * value =>
               if decide (fst kv = "condition") then None
               else Some (Guess (mkSearchExpr (fst kv) ExprUnk (snd kv))))
            kvs).

(** [Detection.FieldSlice]: the names received from [Fields]. *)
Definition FieldSlice : M (list string) :=
  do rx <- Fields;
  ret (map Name rx).

(* ===================================================================== *)
(** ** The condition parser (pkg/condition/condition_parser.go) *)
(* ===================================================================== *)

(** Modelled from the spec: the matching tree of section 3, as far as the
    parser builds it; package [match] is outside the two files.  The parser
    wraps the branch [r] of the leaf builder into [match.NodeNot{Branch: r}];
    a leaf is kept as the expression and the case flag it is built from. *)
Inductive Branch : Set :=
  | Leaf (expr : SearchExpr) (lower : bool)
  | NodeNot (b : Branch).

(** Modelled from the spec: the group span of section 3 (start offset, end
    offset, depth), the element type of what [newGroupOffsetInTokens]
    returns; the function and its result type are outside the two files. *)
Record GroupSpan : Set := mkGroupSpan {
  start_offset : nat;
  end_offset : nat;
  depth : nat
}.

Module rule.
(** [rule.Config]: the parser reads its [LowerCase] flag. *)
Record Config : Set := mkConfig { LowerCase : bool }.
End rule.

(** What the parser calls but does not define: the adjacency table of
    token kinds, the group finder, and the leaf builder.  The leaf builder
    receives the pointer returned by [Detection.Get], whose [Content] still
    aliases the detection map, so it runs in [M]. *)
Class Externals : Type := {
  validTokenSequence : Token -> Token -> bool;
  newGroupOffsetInTokens : tokens -> list GroupSpan * bool * option error;
  newRuleMatcherFromIdent : option SearchExpr -> bool -> M Branch
}.

(** The lexer, as far as the parser sees it: the items still to be received
    from its channel. *)
Record lexer : Set := mkLexer { items : list Item }.

(** [type parser struct].  [ptokens] is the embedded [tokens] field. *)
Record parser : Type := mkParser {
  lex : option lexer;
  ptokens : tokens;
  previous : Token;
  sigma : Detection;
  condition : string;
  rules : list value
}.

Definition receive (rest : list Item) (p : parser) : parser :=
  mkParser (Some (mkLexer rest)) (ptokens p) (previous p) (sigma p)
           (condition p) (rules p).

Definition collect (item : Item) (p : parser) : parser :=
  mkParser (lex p)
           (if decide (T item <> LitEof) then ptokens p ++ [item] else ptokens p)
           (T item) (sigma p) (condition p) (rules p).

Definition with_sigma (d : Detection) (p : parser) : parser :=
  mkParser (lex p) (ptokens p) (previous p) d (condition p) (rules p).

Section Code.
Context `{Externals}.

(** The body of [parseSimpleSearch]'s loop, with its three local
    variables as arguments. *)
Fixpoint parseSimpleLoop (t : tokens) (c : rule.Config) (negated : bool)
    (rules : list Branch) (modifiers : list Token)
    : M (bool * list Branch * list Token) :=
  match t with
  | [] => ret (negated, rules, modifiers)
  | item :: rest =>
      match T item with
      | KeywordNot => parseSimpleLoop rest c true rules modifiers
      | KeywordAnd =>
          parseSimpleLoop rest c negated rules (modifiers ++ [KeywordAnd])
      | KeywordOr =>
          parseSimpleLoop rest c negated rules (modifiers ++ [KeywordOr])
      | Identifier =>
          do e <- Get (Val item);
          do r <- newRuleMatcherFromIdent e (rule.LowerCase c);
          let modifiers' :=
            if decide (Z.of_nat (length modifiers) - 1
                       <> Z.of_nat (length rules))%Z
            then modifiers ++ [TokNil] else modifiers in
          parseSimpleLoop rest c false
            (rules ++ [if negated then NodeNot r else r]) modifiers'
      | _ => parseSimpleLoop rest c negated rules modifiers
      end
  end.

(** [parseSimpleSearch(t, data, c)]; [data] is the state of [M]. *)
Definition parseSimpleSearch (t : tokens) (c : rule.Config) : M Branch :=
  do _ <- parseSimpleLoop t c false [] [TokNil];
  fail (Errorf "WIP" []).

(** [parseSearch(t, data, c)]; [data] is the state of [M].  With groups
    found, line 39 asserts that [data["condition"]] is a string before
    the error is returned. *)
Definition parseSearch (t : tokens) (c : rule.Config) : M Branch :=
  if contains t IdentifierAll then
    fail (Errorf "TODO - THEM identifier" [])
  else if contains t IdentifierWithWildcard then
    fail (Errorf "TODO - wildcard identifier" [])
  else if contains t StOne || contains t StAll then
    fail (Errorf "TODO - X of statement" [])
  else
    match newGroupOffsetInTokens t with
    | (_, _, Some err) => fail err
    | (groups, true, None) =>
        do cond <- mapindex "condition";
        match cond with
        | Some (VString _) =>
            fail (Errorf "TODO - implement parsing sub-groups recursively" [])
        | _ => panic "interface conversion: interface {} is not string"
        end
    | (_, false, None) => parseSimpleSearch t c
    end.

(** The loop of [collectAndValidateTokenSequences] over the items the
    lexer delivers. *)
Fixpoint collectLoop (its : list Item) (p : parser) : parser * outcome unit :=
  match its with
  | [] => (receive [] p, Ret tt)
  | item :: rest =>
      let p := receive rest p in
      if decide (T item = TokUnsupp) then
        (p, Fail (ErrValue (ErrUnsupportedToken (Val item))))
      else if negb (validTokenSequence (previous p) (T item)) then
        (p, Fail (Errorf "invalid token sequence %s -> %s. Value: %s"
                    [ArgTok (previous p); ArgTok (T item); ArgStr (Val item)]))
      else collectLoop rest (collect item p)
  end.

Definition collectAndValidateTokenSequences (p : parser)
    : parser * outcome unit :=
  match lex p with
  | None => (p, Panic "invalid memory address or nil pointer dereference")
  | Some l =>
      match collectLoop (items l) p with
      | (p', Ret _) =>
          if decide (previous p' <> LitEof) then
            (p', Fail (Errorf "last element should be EOF, got %s"
                         [ArgTok (previous p')]))
          else (p', Ret tt)
      | r => r
      end
  end.

(** [parser.run]: validation, then [parseSearch] on the collected tokens
    and the parser's detection map, with the zero [rule.Config]. *)
Definition run (p : parser) : parser * outcome unit :=
  match lex p with
  | None =>
      (p, Fail (Errorf "cannot run condition parser, lexer not initialized" []))
  | Some _ =>
      match collectAndValidateTokenSequences p with
      | (p', Ret _) =>
          match parseSearch (ptokens p') (rule.mkConfig false) (sigma p') with
          | (d', Ret _) => (with_sigma d' p', Ret tt)
          | (d', Fail e) => (with_sigma d' p', Fail e)
          | (d', Panic msg) => (with_sigma d' p', Panic msg)
          end
      | r => r
      end
  end.

End Code.

(* ===================================================================== *)
(** ** Rules, rule groups and the rule set (pkg/sigma/sigma.go) *)
(* ===================================================================== *)

(** [EventChecker]: the two accessors an event offers. *)
Class EventChecker (E : Type) : Type := {
  GetMessage : E -> list string;
  GetField : E -> string -> option value
}.

Module Logsource.
Record t : Set := mk {
  Product : string;
  Category : string;
  Service : string;
  definition : string
}.
End Logsource.

Module RawRule.
Record t : Type := mk {
  File : string;
  ID : string;
  Title : string;
  Status : string;
  Description : string;
  Author : string;
  References : list string;
  Logsource : Logsource.t;
  Detection_ : Detection;
  Fields_ : value;
  Falsepositives : value;
  Level : value;
  Tags : list string
}.
End RawRule.

(** [RawRule.Condition]: the condition string of the detection map. *)
Definition Condition (r : RawRule.t) : string * option error :=
  if decide (size (RawRule.Detection_ r) = 0) then
    ("", Some (Errorf "missing detection key" []))
  else
    match RawRule.Detection_ r !! "condition" with
    | Some (VString val) => (val, None)
    | _ => ("", Some (Errorf "condition key missing or not a string value" []))
    end.

Definition GetCondition (r : RawRule.t) : string :=
  match Condition r with
  | (c, None) => c
  | _ => ""
  end.

Module Result.
Record t : Set := mk { Tags : list string; ID : string; Title : string }.
End Result.

Abbreviation Results := (list Result.t).

(** What [sigma.go] uses from the rest of its package and from the
    libraries: the compiled tree with its [Match] method (called on the
    [*Tree] pointer, which may be nil), [ParseDetection], the current user,
    [filepath.Join], the visits of [filepath.Walk] (what it hands to the
    callback as long as the callback returns nil: the path, the [FileInfo],
    which is nil or tells whether the entry is a directory, and the error),
    [ioutil.ReadFile] and [yaml.Unmarshal]. *)
Class SigmaEnv : Type := {
  Tree : Type;
  Match : forall {E} `{EventChecker E}, option Tree -> E -> bool;
  ParseDetection : Detection -> option Tree * option error;
  userCurrent : string * option error;
  filepathJoin : string -> string -> string;
  filepathWalk : string -> list (string * option bool * option error);
  ReadFile : string -> string * option error;
  yamlUnmarshal : string -> RawRule.t * option error
}.

(** The address a pointer of [UnsupportedRawRule.Rule] holds: the [RawRule]
    field of the loop variable [dec] of the decoding loop, or of the loop
    variable [rule] of the grouping loop, in the given iteration. *)
Inductive ruleref : Set :=
  | RefDec (iteration : nat)
  | RefRule (iteration : nat).

Module UnsupportedRawRule.
Record t : Set := mk {
  Path : string;
  Reason : string;
  Error : option error;
  data : option string;
  Rule : option ruleref
}.
End UnsupportedRawRule.

Module Config.
Record t : Set := mk { Directories : list string }.
End Config.

Section Sigma.
Context `{SigmaEnv}.

Record Rule : Type := mkRule {
  tree : option Tree;
  Raw_ : RawRule.t;
  Path : string
}.

(** [type RuleGroup []Rule] *)
Definition RuleGroup : Type := list Rule.

Definition result_of (rule : Rule) : Result.t :=
  Result.mk (RawRule.Tags (Raw_ rule)) (RawRule.ID (Raw_ rule))
            (RawRule.Title (Raw_ rule)).

(** The loop of [RuleGroup.Check]; the flag tells that the loop returned
    from inside, at [len(res) == 1 && firstmatch]. *)
Fixpoint CheckLoop {E} `{EventChecker E} (r : RuleGroup) (obj : E)
    (firstmatch : bool) (res : Results) : Results * bool :=
  match r with
  | [] => (res, false)
  | rule :: rest =>
      if Match (tree rule) obj then
        let res' := res ++ [result_of rule] in
        if Nat.eqb (length res') 1 && firstmatch then (res', true)
        else CheckLoop rest obj firstmatch res'
      else CheckLoop rest obj firstmatch res
  end.

(** [RuleGroup.Check]; the nil result is the empty list. *)
Definition Check {E} `{EventChecker E} (r : RuleGroup) (obj : E)
    (firstmatch : bool) : Results * bool :=
  match CheckLoop r obj firstmatch [] with
  | (res, true) => (res, true)
  | (res, false) => if Nat.ltb 0 (length res) then (res, true) else ([], false)
  end.

(** [type RuleMap map[string]RuleGroup] *)
Definition RuleMap : Type := gmap string RuleGroup.

(** [RuleMap.Clone] *)
Definition Clone (r : RuleMap) : RuleMap := (fun v : RuleGroup => v) <$> r.

(** [RuleMap.Check] *)
Definition RuleMap_Check {E} `{EventChecker E} (r : RuleMap) (obj : E)
    (rulegroup : string) (firstmatch : bool) : Results * bool :=
  match r !! rulegroup with
  | Some group => Check group obj firstmatch
  | None => ([], false)
  end.

Record Ruleset : Type := mkRuleset {
  dirs : list string;
  Rules : RuleMap;
  Total : Z;
  Unsupported : list UnsupportedRawRule.t;
  Broken : list UnsupportedRawRule.t
}.

Definition add_unsupported (u : UnsupportedRawRule.t) (r : Ruleset) : Ruleset :=
  mkRuleset (dirs r) (Rules r) (Total r) (Unsupported r ++ [u]) (Broken r).

Definition add_broken (u : UnsupportedRawRule.t) (r : Ruleset) : Ruleset :=
  mkRuleset (dirs r) (Rules r) (Total r) (Unsupported r) (Broken r ++ [u]).

(** The type switch of the decoding loop: the error types that send a
    rule to [Unsupported]. *)
Definition isUnsupportedError (err : error) : bool :=
  match err with
  | ErrPointer (ErrUnsupportedToken _)
  | ErrPointer (ErrIncompleteDetection _ _ _)
  | ErrPointer ErrWip
  | ErrValue (ErrUnsupportedToken _)
  | ErrValue (ErrIncompleteDetection _ _ _)
  | ErrValue ErrWip => true
  | _ => false
  end.

(** [decodedloop]: compile every decoded rule; [i] counts iterations. *)
Fixpoint decodedloop (i : nat) (decoded : list Rule) (r : Ruleset)
    (rules : list Rule) : Ruleset * list Rule :=
  match decoded with
  | [] => (r, rules)
  | dec :: rest =>
      match ParseDetection (RawRule.Detection_ (Raw_ dec)) with
      | (_, Some err) =>
          let u := UnsupportedRawRule.mk (Path dec) "" (Some err) None
                                         (Some (RefDec i)) in
          if isUnsupportedError err
          then decodedloop (S i) rest (add_unsupported u r) rules
          else decodedloop (S i) rest (add_broken u r) rules
      | (tree, None) =>
          decodedloop (S i) rest r (rules ++ [mkRule tree (Raw_ dec) (Path dec)])
      end
  end.

(** [ExpandHome] *)
Definition ExpandHome (path : string) : string * option error :=
  match path with
  | EmptyString => (path, None)
  | String c rest =>
      if negb (Ascii.eqb c "~"%char) then (path, None)
      else
        match userCurrent with
        | (_, Some err) => (path, Some err)
        | (HomeDir, None) => (filepathJoin HomeDir rest, None)
        end
  end.

(** The loop of [Config.Validate]: directories are replaced in place, up
    to the first one that fails to expand. *)
Fixpoint ValidateLoop (directories : list string) : list string * option error :=
  match directories with
  | [] => ([], None)
  | dir :: rest =>
      match ExpandHome dir with
      | (_, Some err) => (dir :: rest, Some err)
      | (dir', None) =>
          let '(rest', err) := ValidateLoop rest in (dir' :: rest', err)
      end
  end.

(** [Config.Validate]: the configuration after the call, and the error. *)
Definition Validate (c : Config.t) : Config.t * option error :=
  match Config.Directories c with
  | [] => (c, Some (Errorf "Missing sigma rule directory" []))
  | directories =>
      let '(directories', err) := ValidateLoop directories in
      (Config.mk directories', err)
  end.

(** [strings.HasSuffix] *)
Definition HasSuffix (s suffix : string) : bool :=
  String.prefix (String.rev suffix) (String.rev s).

(** [bytes.Contains] *)
Definition Contains (b subslice : string) : bool :=
  match String.index 0 subslice b with
  | Some _ => true
  | None => false
  end.

(** The callback of [discoverRuleFilesInDir] over the visits of one walk.
    The callback calls [info.IsDir()] before it looks at the error, so a
    visit with a nil [FileInfo] panics; the walk stops at the first visit
    whose error the callback returns. *)
Fixpoint walkFiles (visits : list (string * option bool * option error))
    (out : list string) : returned (list string * option error) :=
  match visits with
  | [] => Returned (out, None)
  | (path, info, err) :: rest =>
      match info with
      | None => Panicked "invalid memory address or nil pointer dereference"
      | Some isDir =>
          let out' := if negb isDir && HasSuffix path "yml"
                      then out ++ [path] else out in
          match err with
          | Some e => Returned (out', Some e)
          | None => walkFiles rest out'
          end
      end
  end.

Fixpoint discoverLoop (directories : list string) (out : list string)
    : returned (list string * option error) :=
  match directories with
  | [] => Returned (out, None)
  | dir :: rest =>
      match walkFiles (filepathWalk dir) out with
      | Panicked msg => Panicked msg
      | Returned (_, Some err) => Returned ([], Some err)
      | Returned (out', None) => discoverLoop rest out'
      end
  end.

(** [discoverRuleFilesInDir]; the nil slice is the empty list. *)
Definition discoverRuleFilesInDir (directories : list string)
    : returned (list string * option error) :=
  discoverLoop directories [].

(** The first loop of [NewRuleset]: read and decode every file. *)
Fixpoint fileloop (files : list string) (r : Ruleset) (decoded : list Rule)
    : (Ruleset * list Rule) + error :=
  match files with
  | [] => inl (r, decoded)
  | path :: rest =>
      match ReadFile path with
      | (_, Some err) => inr err
      | (data, None) =>
          if Contains data "---" then
            fileloop rest
              (add_unsupported
                 (UnsupportedRawRule.mk path "Multi-part YAML" None None None) r)
              decoded
          else
            match yamlUnmarshal data with
            | (_, Some err) => inr err
            | (s, None) => fileloop rest r (decoded ++ [mkRule None s path])
            end
      end
  end.

(** [groupLoop]: file the compiled rules under their log source product. *)
Fixpoint groupLoop (i : nat) (rules : list Rule) (r : Ruleset) : Ruleset :=
  match rules with
  | [] => r
  | rule :: rest =>
      let product := Logsource.Product (RawRule.Logsource (Raw_ rule)) in
      if decide (product = "") then
        groupLoop (S i) rest
          (mkRuleset (dirs r) (Rules r) (Total r - 1)
             (Unsupported r ++
                [UnsupportedRawRule.mk (Path rule) "Missing PRODUCT in LOGSOURCE"
                                       None None (Some (RefRule i))])
             (Broken r))
      else
        let group := match Rules r !! product with
                     | Some val => val ++ [rule]
                     | None => [rule]
                     end in
        groupLoop (S i) rest
          (mkRuleset (dirs r) (<[product := group]> (Rules r)) (Total r)
                     (Unsupported r) (Broken r))
  end.

(** [NewRuleset]: the configuration after the call, the rule set pointer
    and the error; or the panic of the discovery. *)
Definition NewRuleset (c : Config.t)
    : returned (Config.t * option Ruleset * option error) :=
  match Validate c with
  | (c', Some err) => Returned (c', None, Some err)
  | (c', None) =>
      let r := mkRuleset (Config.Directories c') ∅ 0 [] [] in
      match discoverRuleFilesInDir (dirs r) with
      | Panicked msg => Panicked msg
      | Returned (_, Some err) => Returned (c', None, Some err)
      | Returned (files, None) =>
          match fileloop files r [] with
          | inr err => Returned (c', None, Some err)
          | inl (r, decoded) =>
              let '(r, rules) := decodedloop 0 decoded r [] in
              if Nat.eqb (length rules) 0 then
                Returned
                  (c', Some r,
                   Some (Errorf "unable to parse any rules from %+v"
                           [ArgStrs (dirs r)]))
              else
                let r := mkRuleset (dirs r) (Rules r)
                           (Z.of_nat (length rules)) (Unsupported r) (Broken r) in
                Returned (c', Some (groupLoop 0 rules r), None)
          end
      end
  end.

End Sigma.

(* ===================================================================== *)
(** ** A concrete environment for the worked examples *)
(* ===================================================================== *)

(** Modelled from the spec: the adjacency table of section 4.2, which is
    outside the two files.  An operand follows the start, an operator or an
    opening parenthesis; an operator follows an operand or a closing
    parenthesis; the end of input follows an operand or a closing
    parenthesis; no kind is followed by an unsupported token. *)
Definition sampleValidTokenSequence (t1 t2 : Token) : bool :=
  match t2 with
  | StAll | StOne =>
      match t1 with
      | TokBegin | LParen | KeywordAnd | KeywordOr | KeywordNot => true
      | _ => false
      end
  | IdentifierAll =>
      match t1 with StAll | StOne => true | _ => false end
  | Identifier | IdentifierWithWildcard =>
      match t1 with
      | TokBegin | LParen | KeywordAnd | KeywordOr | KeywordNot
      | StOne | StAll => true
      | _ => false
      end
  | KeywordAnd | KeywordOr | RParen | LitEof =>
      match t1 with
      | Identifier | IdentifierWithWildcard | IdentifierAll | RParen => true
      | _ => false
      end
  | KeywordNot =>
      match t1 with
      | TokBegin | LParen | KeywordAnd | KeywordOr => true
      | _ => false
      end
  | LParen =>
      match t1 with
      | TokBegin | LParen | KeywordAnd | KeywordOr | KeywordNot => true
      | _ => false
      end
  | _ => false
  end.

(** Modelled from the spec: the group resolver of section 4.3, which is
    outside the two files.  One scan with a balance counter: a span opens at
    the first unmatched opening parenthesis and closes when the counter is
    back at zero; a counter left positive or driven negative is an error. *)
Fixpoint groupScan (t : tokens) (i balance start : nat) (acc : list GroupSpan)
    : list GroupSpan * bool * option error :=
  match t with
  | [] =>
      match balance with
      | O => (acc, Nat.ltb 0 (length acc), None)
      | S _ => ([], false, Some (Errorf "unexpected end of condition" []))
      end
  | item :: rest =>
      match T item, balance with
      | LParen, O => groupScan rest (S i) 1 i acc
      | LParen, S _ => groupScan rest (S i) (S balance) start acc
      | RParen, O =>
          ([], false, Some (Errorf "unmatched closing parenthesis" []))
      | RParen, S O => groupScan rest (S i) 0 0 (acc ++ [mkGroupSpan start i 0])
      | RParen, S b => groupScan rest (S i) b start acc
      | _, _ => groupScan rest (S i) balance start acc
      end
  end.

Definition sampleGroupOffsetInTokens (t : tokens)
    : list GroupSpan * bool * option error :=
  groupScan t 0 0 0 [].

(** Modelled from the spec: the leaf builder of sections 4.4 and 4.5, which
    is outside the two files, reduced to what the examples need: an
    identifier absent from the detection map is a compile error, any other
    becomes a leaf.  It only reads its argument. *)
Definition sampleRuleMatcherFromIdent (e : option SearchExpr) (lower : bool)
    : M Branch :=
  match e with
  | None => fail (ErrValue (ErrIncompleteDetection "" [] "unknown identifier"))
  | Some expr => ret (Leaf expr lower)
  end.

Definition sampleExternals : Externals :=
  Build_Externals sampleValidTokenSequence sampleGroupOffsetInTokens
                  sampleRuleMatcherFromIdent.

(** [dummyObject2] of the test file: an event as a map from field names to
    strings. *)
#[global] Instance dummyObject2 : EventChecker (gmap string string) := {
  GetMessage d :=
    omap (fun k => d !! k) ["Image"; "CommandLine"; "ParentImage"];
  GetField d key := VString <$> d !! key
}.

(** A compiled tree for the examples: a selection of literal field values,
    all of which the event must carry. *)
Definition sampleMatch {E} `{EventChecker E}
    (tree : option (list (string * string))) (obj : E) : bool :=
  match tree with
  | None => false
  | Some fields =>
      forallb (fun fv : string * string =>
                 match GetField obj (fst fv) with
                 | Some (VString s) => bool_decide (s = snd fv)
                 | _ => false
                 end)
              fields
  end.

Definition literalFields (content : value) : option (list (string * string)) :=
  match content with
  | VMap m =>
      Some (omap (fun kv : string * value =>
                    match snd kv with
                    | VString s => Some (fst kv, s)
                    | _ => None
                    end) m)
  | _ => None
  end.

(** A compiler for the examples.  It accepts a condition that is the name
    of one selection; a condition naming no entry is an incomplete
    detection, any other condition an unsupported token. *)
Definition sampleParseDetection (d : Detection)
    : option (list (string * string)) * option error :=
  if decide (size d = 0) then (None, Some (ErrValue ErrEmptyDetection))
  else
    match d !! "condition" with
    | Some (VString cond) =>
        match d !! cond with
        | Some content =>
            match literalFields content with
            | Some fields => (Some fields, None)
            | None => (None, Some (ErrValue (ErrUnsupportedToken cond)))
            end
        | None =>
            if existsb (Ascii.eqb " "%char) (String.list_ascii_of_string cond)
            then (None, Some (ErrValue (ErrUnsupportedToken cond)))
            else (None, Some (ErrValue (ErrIncompleteDetection cond [] "")))
        end
    | _ => (None, Some (ErrValue ErrMissingCondition))
    end.

Definition emptyRawRule : RawRule.t :=
  RawRule.mk "" "" "" "" "" "" [] (Logsource.mk "" "" "" "") ∅ VNil VNil VNil [].

(** An environment with no files. *)
Definition sampleSigmaEnv : SigmaEnv := {|
  Tree := list (string * string);
  Match := @sampleMatch;
  ParseDetection := sampleParseDetection;
  userCurrent := ("/home/sigma", None);
  filepathJoin := fun a b => String.append a b;
  filepathWalk := fun _ => [];
  ReadFile := fun _ => ("", Some (ErrLibrary "no such file or directory"));
  yamlUnmarshal := fun _ => (emptyRawRule, Some (ErrLibrary "yaml: unmarshal"))
|}.

(** *** Fixtures *)

Definition ident (name : string) : Item := mkItem Identifier name.
Definition kwAnd : Item := mkItem KeywordAnd "and".
Definition kwOr : Item := mkItem KeywordOr "or".
Definition kwNot : Item := mkItem KeywordNot "not".
Definition lpar : Item := mkItem LParen "(".
Definition rpar : Item := mkItem RParen ")".
Definition eof : Item := mkItem LitEof "".

Definition selection (field pattern : string) : value :=
  VMap [(field, VString pattern)].

(** [detection6] of the test file, and the tokens of its condition. *)
Definition detection6 : Detection :=
  list_to_map [
    ("condition", VString "(selection5 and ((selection1 and not selection2) or (not selection3 and selection4)))");
    ("selection1", selection "Field1" "aaa");
    ("selection2", selection "Field2" "bbb");
    ("selection3", selection "Field3" "ccc");
    ("selection4", selection "Field4" "ddd");
    ("selection5", selection "Field5" "eee")
  ].

Definition tokens6 : tokens :=
  [lpar; ident "selection5"; kwAnd;
   lpar; lpar; ident "selection1"; kwAnd; kwNot; ident "selection2"; rpar;
   kwOr;
   lpar; kwNot; ident "selection3"; kwAnd; ident "selection4"; rpar; rpar;
   rpar].

(** A detection with three selections, and the tokens of ["A or B and C"]. *)
Definition detectionABC : Detection :=
  list_to_map [
    ("condition", VString "A or B and C");
    ("A", selection "Field1" "aaa");
    ("B", selection "Field2" "bbb");
    ("C", selection "Field3" "ccc")
  ].

Definition tokensABC : tokens :=
  [ident "A"; kwOr; ident "B"; kwAnd; ident "C"].

(** The tokens of ["all of them"] and of ["1 of filter*"]. *)
Definition tokensThem : tokens :=
  [mkItem StAll "all of"; mkItem IdentifierAll "them"].

Definition tokensOneOf : tokens :=
  [mkItem StOne "1 of"; mkItem IdentifierWithWildcard "filter*"].

Definition defaultConfig : rule.Config := rule.mkConfig false.

(** A parser about to run: nothing collected, [previous] at the start
    kind. *)
Definition freshParser (its : list Item) (d : Detection) (cond : string)
    : parser :=
  mkParser (Some (mkLexer its)) [] TokBegin d cond [].

(** The tokens of [selection | count(dns_query) by parent_domain > 1000]
    of the test data, as far as the pipe, which the lexer cannot place. *)
Definition tokensAggregation : list Item :=
  [ident "selection"; mkItem TokUnsupp "|"; ident "count"; eof].

Definition rawRule (id title : string) (tags : list string) (product : string)
    (d : Detection) : RawRule.t :=
  RawRule.mk "" id title "" "" "" [] (Logsource.mk product "" "" "") d
             VNil VNil VNil tags.

Definition detectionCmd : Detection :=
  list_to_map [("condition", VString "selection");
               ("selection", selection "Image" "cmd.exe")].

Definition detectionAggregation : Detection :=
  list_to_map [("condition", VString "selection | count() > 10");
               ("selection", selection "Image" "cmd.exe")].

Definition detectionNoCondition : Detection :=
  list_to_map [("selection", selection "Image" "cmd.exe")].

Definition detectionPowershell : Detection :=
  list_to_map [("condition", VString "selection");
               ("selection", selection "Image" "powershell.exe")].

(** Four decoded rules: one that compiles, one with an unsupported
    construct, one that is broken, and one more that compiles. *)
Definition sampleDecoded : list (@Rule sampleSigmaEnv) :=
  [ @mkRule sampleSigmaEnv None
      (rawRule "1" "cmd" ["attack.execution"] "windows" detectionCmd) "r1.yml";
    @mkRule sampleSigmaEnv None
      (rawRule "2" "aggregation" [] "windows" detectionAggregation) "r2.yml";
    @mkRule sampleSigmaEnv None
      (rawRule "3" "no condition" [] "windows" detectionNoCondition) "r3.yml";
    @mkRule sampleSigmaEnv None
      (rawRule "4" "powershell" ["attack.t1086"] "windows" detectionPowershell)
      "r4.yml" ].

Definition sampleRuleset : @Ruleset sampleSigmaEnv :=
  @mkRuleset sampleSigmaEnv ["rules"] ∅ 0 [] [].

(** A group of three compiled rules; the second and the third match an
    event whose image is [cmd.exe]. *)
Definition sampleGroup : @RuleGroup sampleSigmaEnv :=
  [ @mkRule sampleSigmaEnv (Some [("Image", "powershell.exe")])
      (rawRule "4" "powershell" ["attack.t1086"] "windows" detectionPowershell)
      "r4.yml";
    @mkRule sampleSigmaEnv (Some [("Image", "cmd.exe")])
      (rawRule "1" "cmd" ["attack.execution"] "windows" detectionCmd) "r1.yml";
    @mkRule sampleSigmaEnv (Some [("Image", "cmd.exe")])
      (rawRule "5" "cmd again" [] "windows" detectionCmd) "r5.yml" ].

Definition eventCmd : gmap string string :=
  list_to_map [("Image", "cmd.exe"); ("CommandLine", "/c whoami")].

Definition eventNotepad : gmap string string :=
  list_to_map [("Image", "notepad.exe")].

(* ===================================================================== *)
(** ** The properties, in the words of the specification *)
(* ===================================================================== *)

(** The classification rule of section 3: a name with the keyword-list
    prefix is [Keywords], any other name is [Selection]. *)
Definition classify (name : string) : SearchExprType :=
  if String.prefix "keyword" name then ExprKeywords else ExprSelection.

(** The token stream invariant of section 3: never empty, exactly one
    [Eof], and it is last. *)
Definition TokenStreamInvariant (ts : tokens) : Prop :=
  ts <> [] /\
  length (filter (fun item => T item = LitEof) ts) = 1 /\
  last (map T ts) = Some LitEof.

(** The items the validator keeps: all but the end-of-input items. *)
Definition collected (its : list Item) : tokens :=
  filter (fun item => T item <> LitEof) its.

(** A stream holds a quantifier form or a wildcard identifier. *)
Definition hasQuantifier (t : tokens) : bool :=
  contains t IdentifierAll || contains t IdentifierWithWildcard
  || contains t StOne || contains t StAll.

Section Adjacency.
Context `{Externals}.

(** Every adjacent pair of kinds, from the kind seen before the stream
    on, is in the adjacency table. *)
Fixpoint adjacent_ok (prev : Token) (kinds : list Token) : bool :=
  match kinds with
  | [] => true
  | k :: rest => validTokenSequence prev k && adjacent_ok k rest
  end.

End Adjacency.

(** How the decoding loop files one rule: the entry it appends, and to
    which list. *)
Inductive routed {R : Type} : Type :=
  | ToUnsupported (u : UnsupportedRawRule.t)
  | ToBroken (u : UnsupportedRawRule.t)
  | ToRules (rule : R).

Arguments routed R : clear implicits.

Section Routing.
Context `{SigmaEnv}.

(** The route of the rule decoded at position [i], from its own compile
    result alone. *)
Definition route (i : nat) (dec : Rule) : routed Rule :=
  match ParseDetection (RawRule.Detection_ (Raw_ dec)) with
  | (_, Some err) =>
      let u := UnsupportedRawRule.mk (Path dec) "" (Some err) None
                                     (Some (RefDec i)) in
      if isUnsupportedError err then ToUnsupported u else ToBroken u
  | (tree, None) => ToRules (mkRule tree (Raw_ dec) (Path dec))
  end.

(** The routes of a batch whose first rule is decoded at position [i]. *)
Fixpoint routes (i : nat) (decoded : list Rule) : list (routed Rule) :=
  match decoded with
  | [] => []
  | dec :: rest => route i dec :: routes (S i) rest
  end.

Definition unsupportedOf (x : routed Rule) : option UnsupportedRawRule.t :=
  match x with ToUnsupported u => Some u | _ => None end.

Definition brokenOf (x : routed Rule) : option UnsupportedRawRule.t :=
  match x with ToBroken u => Some u | _ => None end.

Definition compiledOf (x : routed Rule) : option Rule :=
  match x with ToRules rule => Some rule | _ => None end.

(** The rule whose tree matches the event. *)
Definition matches {E} `{EventChecker E} (obj : E) (rule : Rule) : bool :=
  Match (tree rule) obj.

End Routing.

(* ===================================================================== *)
(** ** Further code and the vocabulary of its properties *)
(* ===================================================================== *)

(** [UnsupportedRawRule.Raw]: the stored bytes of the rule, or a message
    naming its path when there are none. *)
Definition Raw (u : UnsupportedRawRule.t) : string :=
  match UnsupportedRawRule.data u with
  | None | Some EmptyString =>
      String.append "missing data for unsupported rule "
                    (UnsupportedRawRule.Path u)
  | Some d => d
  end.

(** The number of items of a kind in a stream. *)
Definition countKind (k : Token) (t : tokens) : nat :=
  length (filter (fun item => T item = k) t).

(** The path starts with a tilde. *)
Definition startsWithTilde (path : string) : bool :=
  match path with
  | String c _ => Ascii.eqb c "~"%char
  | EmptyString => false
  end.

(** The path of a visit, and whether the callback of
    [discoverRuleFilesInDir] keeps it. *)
Definition visitPath (v : string * option bool * option error) : string :=
  fst (fst v).

Definition keptVisit (v : string * option bool * option error) : bool :=
  match snd (fst v) with
  | Some isDir => negb isDir && HasSuffix (visitPath v) "yml"
  | None => false
  end.

(** What a visit does to the walk: nothing, a panic of the callback (no
    [FileInfo]), or the end of the walk with the error of the visit. *)
Definition visitStop (v : string * option bool * option error)
    : option (string + error) :=
  match v with
  | (_, None, _) => Some (inl "invalid memory address or nil pointer dereference")
  | (_, Some _, Some err) => Some (inr err)
  | (_, Some _, None) => None
  end.

(** The error kinds that the specification calls unsupported constructs:
    an [ErrUnsupportedToken], an [ErrIncompleteDetection] or an [ErrWip],
    held by value or by pointer. *)
Inductive UnsupportedConstruct : error -> Prop :=
  | unsupported_token msg : UnsupportedConstruct (ErrValue (ErrUnsupportedToken msg))
  | incomplete_detection cond keys msg :
      UnsupportedConstruct (ErrValue (ErrIncompleteDetection cond keys msg))
  | wip : UnsupportedConstruct (ErrValue ErrWip)
  | unsupported_token_ptr msg :
      UnsupportedConstruct (ErrPointer (ErrUnsupportedToken msg))
  | incomplete_detection_ptr cond keys msg :
      UnsupportedConstruct (ErrPointer (ErrIncompleteDetection cond keys msg))
  | wip_ptr : UnsupportedConstruct (ErrPointer ErrWip).

Section Loading.
Context `{SigmaEnv}.

(** A directory after a successful [ExpandHome]. *)
Definition expanded (dir : string) : string :=
  match dir with
  | String c rest =>
      if Ascii.eqb c "~"%char then filepathJoin (fst userCurrent) rest else dir
  | EmptyString => dir
  end.

(** All visits of the walks of the directories, in order. *)
Definition visits (directories : list string)
    : list (string * option bool * option error) :=
  concat (map filepathWalk directories).

(** The file holds the separator of a multi-part document. *)
Definition isMultiPart (path : string) : bool :=
  Contains (fst (ReadFile path)) "---".

(** The error that makes the first loop of [NewRuleset] give up on a file:
    the file cannot be read, or it is a single document that does not
    decode. *)
Definition fileFails (path : string) : option error :=
  match ReadFile path with
  | (_, Some err) => Some err
  | (data, None) =>
      if Contains data "---" then None else snd (yamlUnmarshal data)
  end.

Definition multiPartEntry (path : string) : UnsupportedRawRule.t :=
  UnsupportedRawRule.mk path "Multi-part YAML" None None None.

Definition decodedRule (path : string) : Rule :=
  mkRule None (fst (yamlUnmarshal (fst (ReadFile path)))) path.


(** The log source product of a rule. *)
Definition product (rule : Rule) : string :=
  Logsource.Product (RawRule.Logsource (Raw_ rule)).

Definition hasProduct (k : string) (rule : Rule) : bool :=
  bool_decide (product rule = k).

(** The entries of the rules without product, the first of which is met
    in iteration [i] of the grouping loop. *)
Fixpoint missingProducts (i : nat) (rules : list Rule)
    : list UnsupportedRawRule.t :=
  match rules with
  | [] => []
  | rule :: rest =>
      if decide (product rule = "") then
        UnsupportedRawRule.mk (Path rule) "Missing PRODUCT in LOGSOURCE"
                              None None (Some (RefRule i))
          :: missingProducts (S i) rest
      else missingProducts (S i) rest
  end.

(** The number of rules in the groups of a rule map. *)
Definition grouped (m : RuleMap) : nat :=
  map_fold (fun (_ : string) (g : RuleGroup) (n : nat) => length g + n) 0 m.

End Loading.

(** An environment with files.  The directory [rules] holds four rule
    files and a text file; a rule file holds the name of its rule, and
    [cmd], [nop] and [agg] are the names that decode. *)
Definition sampleDecode (data : string) : RawRule.t * option error :=
  if String.eqb data "cmd" then
    (rawRule "1" "cmd" ["attack.execution"] "windows" detectionCmd, None)
  else if String.eqb data "nop" then
    (rawRule "6" "no product" [] "" detectionPowershell, None)
  else if String.eqb data "agg" then
    (rawRule "2" "aggregation" [] "windows" detectionAggregation, None)
  else (emptyRawRule, Some (ErrLibrary "yaml: unmarshal errors")).

Definition sampleRead (path : string) : string * option error :=
  if String.eqb path "rules/cmd.yml" then ("cmd", None)
  else if String.eqb path "rules/nop.yml" then ("nop", None)
  else if String.eqb path "rules/agg.yml" then ("agg", None)
  else if String.eqb path "rules/multi.yml" then ("a: 1
---
b: 2", None)
  else ("", Some (ErrLibrary "no such file or directory")).

Definition sampleWalk (dir : string)
    : list (string * option bool * option error) :=
  if String.eqb dir "rules" then
    [("rules", Some true, None); ("rules/agg.yml", Some false, None);
     ("rules/cmd.yml", Some false, None); ("rules/multi.yml", Some false, None);
     ("rules/nop.yml", Some false, None); ("rules/readme.txt", Some false, None)]
  else if String.eqb dir "locked" then
    [("locked", Some true, Some (ErrLibrary "permission denied"))]
  else [(dir, None, Some (ErrLibrary "no such file or directory"))].

Definition sampleFileEnv : SigmaEnv := {|
  Tree := list (string * string);
  Match := @sampleMatch;
  ParseDetection := sampleParseDetection;
  userCurrent := ("/home/sigma", None);
  filepathJoin := fun a b => String.append a b;
  filepathWalk := sampleWalk;
  ReadFile := sampleRead;
  yamlUnmarshal := sampleDecode
|}.

(* ===================================================================== *)
(** ** The validator *)
(* ===================================================================== *)

Section Validator.
Context `{Externals}.

Lemma collectLoop_receive (its rest : list Item) (p : parser) :
  collectLoop its (receive rest p) = collectLoop its p.
Proof. destruct its; reflexivity. Qed.

(** One iteration of the loop. *)
Lemma collectLoop_cons (item : Item) (rest : list Item) (p : parser) :
  collectLoop (item :: rest) p =
    if decide (T item = TokUnsupp) then
      (receive rest p, Fail (ErrValue (ErrUnsupportedToken (Val item))))
    else if negb (validTokenSequence (previous p) (T item)) then
      (receive rest p,
       Fail (Errorf "invalid token sequence %s -> %s. Value: %s"
               [ArgTok (previous p); ArgTok (T item); ArgStr (Val item)]))
    else collectLoop rest (collect item p).
Proof.
  cbn [collectLoop].
  change (previous (receive rest p)) with (previous p).
  destruct (decide (T item = TokUnsupp)); [reflexivity|].
  destruct (validTokenSequence (previous p) (T item)); [|reflexivity].
  change (collect item (receive rest p)) with (receive rest (collect item p)).
  apply collectLoop_receive.
Qed.

Lemma collected_cons (item : Item) (rest : list Item) :
  collected (item :: rest) =
    if decide (T item <> LitEof) then item :: collected rest
    else collected rest.
Proof. unfold collected. rewrite filter_cons. reflexivity. Qed.

(** The loop runs to the end exactly on the streams without unsupported
    token whose adjacent kinds are all in the table. *)
Lemma collectLoop_accepts (its : list Item) (p : parser) :
  snd (collectLoop its p) = Ret tt <->
  (TokUnsupp ∉ map T its) /\ adjacent_ok (previous p) (map T its) = true.
Proof.
  revert p. induction its as [|item rest IH]; intros p.
  - cbn. split; [intros _; split; [apply not_elem_of_nil | reflexivity] | done].
  - rewrite collectLoop_cons. cbn [map adjacent_ok].
    rewrite not_elem_of_cons, andb_true_iff.
    destruct (decide (T item = TokUnsupp)) as [Hu|Hu].
    + cbn. split; [discriminate | intros [[Hne _] _]; congruence].
    + destruct (validTokenSequence (previous p) (T item)) eqn:Hv; cbn.
      * rewrite IH. cbn [previous collect]. intuition congruence.
      * split; [discriminate | intros [_ [? _]]; discriminate].
Qed.

(** What a completed loop leaves in the parser. *)
Lemma collectLoop_state (its : list Item) (p p' : parser) :
  collectLoop its p = (p', Ret tt) ->
  ptokens p' = ptokens p ++ collected its /\
  previous p' = default (previous p) (last (map T its)) /\
  lex p' = Some (mkLexer []) /\
  sigma p' = sigma p.
Proof.
  revert p. induction its as [|item rest IH]; intros p.
  - cbn. intros [= <-]. cbn. rewrite app_nil_r. done.
  - rewrite collectLoop_cons. repeat case_match; try discriminate.
    intros Hloop. apply IH in Hloop as (Ht & Hp & Hl & Hs).
    rewrite Ht, Hp, Hl, Hs, collected_cons. cbn [map].
    repeat split.
    + unfold collect; cbn [ptokens].
      destruct (decide (T item <> LitEof)); [rewrite <- app_assoc|]; reflexivity.
    + cbn [previous collect]. rewrite last_cons.
      destruct (last (map T rest)); reflexivity.
Qed.

Lemma adjacent_ok_no_unsupported (prev : Token) (kinds : list Token) :
  (forall t, validTokenSequence t TokUnsupp = false) ->
  adjacent_ok prev kinds = true -> TokUnsupp ∉ kinds.
Proof.
  intros Htable. revert prev.
  induction kinds as [|k rest IH]; intros prev; [intros _; apply not_elem_of_nil|].
  cbn. rewrite andb_true_iff, not_elem_of_cons. intros [Hv Hrest].
  split; [|by eapply IH].
  intros <-. rewrite Htable in Hv. discriminate.
Qed.

(** Acceptance, for any table and any parser state. *)
Lemma validator_accepts (p : parser) (l : lexer) :
  lex p = Some l ->
  snd (collectAndValidateTokenSequences p) = Ret tt <->
  (TokUnsupp ∉ map T (items l)) /\
  adjacent_ok (previous p) (map T (items l)) = true /\
  default (previous p) (last (map T (items l))) = LitEof.
Proof.
  intros Hlex. unfold collectAndValidateTokenSequences. rewrite Hlex.
  pose proof (collectLoop_accepts (items l) p) as Hacc.
  destruct (collectLoop (items l) p) as [p' [[]|e|msg]] eqn:Hloop;
    cbn [snd] in *.
  - apply collectLoop_state in Hloop as (_ & Hp & _). rewrite <- Hp.
    destruct Hacc as [Hacc _]. destruct (Hacc eq_refl) as [Hu Hadj].
    destruct (decide (previous p' <> LitEof)) as [Hne|Heq]; cbn [snd].
    + split; [discriminate | intros (_ & _ & Hp'); contradiction].
    + split; [intros _ | reflexivity].
      repeat split; try assumption.
      destruct (decide (previous p' = LitEof)); [assumption | contradiction].
  - split; [discriminate|]. intros (Hu & Hadj & _).
    destruct Hacc as [_ Hacc]. discriminate Hacc. split; assumption.
  - split; [discriminate|]. intros (Hu & Hadj & _).
    destruct Hacc as [_ Hacc]. discriminate Hacc. split; assumption.
Qed.

Lemma contains_app (t1 t2 : tokens) (tok : Token) :
  contains (t1 ++ t2) tok = contains t1 tok || contains t2 tok.
Proof. apply existsb_app. Qed.

Lemma contains_collected_eof (its : list Item) :
  contains (collected its) LitEof = false.
Proof.
  induction its as [|item rest IH]; [reflexivity|].
  rewrite collected_cons.
  destruct (decide (T item <> LitEof)) as [Hne|Heq]; [|exact IH].
  cbn. rewrite bool_decide_eq_false_2 by exact Hne. exact IH.
Qed.

(** The items before an unsupported token that pass both checks are the
    only ones the validator handles. *)
Lemma collectLoop_unsupported (pre post : list Item) (item : Item)
    (p p1 : parser) :
  T item = TokUnsupp ->
  collectLoop pre p = (p1, Ret tt) ->
  collectLoop (pre ++ item :: post) p =
    (receive post p1, Fail (ErrValue (ErrUnsupportedToken (Val item)))).
Proof.
  intros Hitem. revert p. induction pre as [|a pre IH]; intros p.
  - cbn [collectLoop]. intros [= <-]. cbn [app].
    rewrite collectLoop_cons, decide_True by exact Hitem. reflexivity.
  - cbn [app]. rewrite !collectLoop_cons.
    destruct (decide (T a = TokUnsupp)); [discriminate|].
    destruct (negb (validTokenSequence (previous p) (T a))); [discriminate|].
    apply IH.
Qed.

(** C4. The validator accepts a stream exactly when every adjacent pair
    of token kinds (starting with the kind held before the first item) is
    in the adjacency table and the last item is [Eof]; a stream that
    passes the table but ends in another kind is rejected with the
    "last element should be EOF" error.  The table is the one the parser
    is linked with; it lists no transition into [Unsupported]. *)
Theorem validator_accepts_iff_adjacent_and_eof (p : parser) (l : lexer) :
  lex p = Some l ->
  items l <> [] ->
  (forall t, validTokenSequence t TokUnsupp = false) ->
  (snd (collectAndValidateTokenSequences p) = Ret tt <->
     adjacent_ok (previous p) (map T (items l)) = true /\
     last (map T (items l)) = Some LitEof)
  /\
  (forall k, adjacent_ok (previous p) (map T (items l)) = true ->
     last (map T (items l)) = Some k -> k <> LitEof ->
     snd (collectAndValidateTokenSequences p) =
       Fail (Errorf "last element should be EOF, got %s" [ArgTok k])).
Proof.
  intros Hlex Hne Htable.
  assert (Hsome : exists k, last (map T (items l)) = Some k).
  { destruct (last (map T (items l))) as [k|] eqn:Hlast; [by exists k|].
    apply last_None, map_eq_nil in Hlast. contradiction. }
  destruct Hsome as [k0 Hk0]. split.
  - rewrite (validator_accepts p l Hlex), Hk0. cbn [from_option id]. split.
    + intros (_ & Hadj & ->). split; [assumption | reflexivity].
    + intros [Hadj [= ->]]. repeat split; try assumption.
      by eapply adjacent_ok_no_unsupported.
  - intros k Hadj Hlast Hk.
    unfold collectAndValidateTokenSequences. rewrite Hlex.
    assert (Hacc : snd (collectLoop (items l) p) = Ret tt).
    { apply collectLoop_accepts. split; [|assumption].
      by eapply adjacent_ok_no_unsupported. }
    destruct (collectLoop (items l) p) as [p' o] eqn:Hloop.
    cbn [snd] in Hacc. subst o.
    apply collectLoop_state in Hloop as (_ & Hp & _).
    rewrite Hlast in Hp. cbn [from_option id] in Hp. rewrite Hp.
    rewrite decide_True by exact Hk. reflexivity.
Qed.

(** C5. When the validator gets as far as an item of kind [Unsupported]
    (the items before it hold no unsupported token and pass the table), it
    returns [ErrUnsupportedToken] with that item's raw text; the collected
    tokens are those of the items before it, and the items after it are
    left in the lexer. *)
Theorem unsupported_token_fails_immediately (p : parser) (l : lexer)
    (pre post : list Item) (item : Item) :
  lex p = Some l ->
  items l = pre ++ item :: post ->
  T item = TokUnsupp ->
  TokUnsupp ∉ map T pre ->
  adjacent_ok (previous p) (map T pre) = true ->
  exists p',
    collectAndValidateTokenSequences p =
      (p', Fail (ErrValue (ErrUnsupportedToken (Val item)))) /\
    ptokens p' = ptokens p ++ collected pre /\
    lex p' = Some (mkLexer post).
Proof.
  intros Hlex Hitems Hitem Hu Hadj.
  assert (Hacc : snd (collectLoop pre p) = Ret tt)
    by (apply collectLoop_accepts; split; assumption).
  destruct (collectLoop pre p) as [p1 o] eqn:Hpre.
  cbn [snd] in Hacc. subst o.
  exists (receive post p1).
  unfold collectAndValidateTokenSequences. rewrite Hlex, Hitems.
  rewrite (collectLoop_unsupported pre post item p p1 Hitem Hpre).
  apply collectLoop_state in Hpre as (Ht & _).
  repeat split. exact Ht.
Qed.

(** After a successful validation the collected tokens are the lexer's
    items without the [Eof] items, after whatever the parser held before;
    the [Eof] is the last kind the validator saw. *)
Lemma collected_stream_eof_left_out (p p' : parser) (l : lexer) :
  lex p = Some l ->
  contains (ptokens p) LitEof = false ->
  collectAndValidateTokenSequences p = (p', Ret tt) ->
  ptokens p' = ptokens p ++ collected (items l) /\
  contains (ptokens p') LitEof = false /\
  previous p' = LitEof.
Proof.
  intros Hlex Hclean. unfold collectAndValidateTokenSequences. rewrite Hlex.
  destruct (collectLoop (items l) p) as [p1 [[]|e|msg]] eqn:Hloop;
    [|discriminate..].
  destruct (decide (previous p1 <> LitEof)) as [Hne|Heq]; [discriminate|].
  intros [= <-].
  apply collectLoop_state in Hloop as (Ht & _).
  rewrite Ht, contains_app, Hclean, contains_collected_eof.
  repeat split.
  destruct (decide (previous p1 = LitEof)); [assumption | contradiction].
Qed.

(** C8, as the code has it.  The token stream that a successful validation
    hands on is not empty, but it holds no [Eof] at all: it is the lexer's
    items in order with the [Eof] left out, after whatever the parser held
    before.  The [Eof] is the last kind the validator saw; it is not
    collected.  The stream is not empty because the table the parser is
    linked with does not let [Eof] follow the kind held before the first
    item, so that the first item is collected. *)
Theorem collected_stream_has_no_eof (p p' : parser) (l : lexer) :
  lex p = Some l ->
  contains (ptokens p) LitEof = false ->
  previous p <> LitEof ->
  validTokenSequence (previous p) LitEof = false ->
  collectAndValidateTokenSequences p = (p', Ret tt) ->
  ptokens p' <> [] /\
  ptokens p' = ptokens p ++ collected (items l) /\
  contains (ptokens p') LitEof = false /\
  previous p' = LitEof.
Proof.
  intros Hlex Hclean Hprev Hfirst Hok.
  destruct (collected_stream_eof_left_out p p' l Hlex Hclean Hok)
    as (Ht & Hno & Hlast).
  split; [|repeat split; assumption].
  assert (Hacc : snd (collectAndValidateTokenSequences p) = Ret tt)
    by (rewrite Hok; reflexivity).
  apply (validator_accepts p l Hlex) in Hacc as (_ & Hadj & Heof).
  rewrite Ht. destruct (items l) as [|item rest].
  - cbn in Heof. contradiction.
  - cbn [map adjacent_ok] in Hadj. apply andb_true_iff in Hadj as [Hpair _].
    rewrite collected_cons.
    destruct (decide (T item <> LitEof)) as [Hne|Heq].
    + intros Hnil. apply app_eq_nil in Hnil as [_ Hnil]. discriminate Hnil.
    + exfalso. assert (Hitem : T item = LitEof)
        by (destruct (decide (T item = LitEof)); [assumption | contradiction]).
      rewrite Hitem, Hfirst in Hpair. discriminate Hpair.
Qed.

(** [run] hands exactly the collected tokens to [parseSearch]. *)
Lemma run_after_validation (p p' : parser) (l : lexer) :
  lex p = Some l ->
  collectAndValidateTokenSequences p = (p', Ret tt) ->
  fst (run p) =
    with_sigma (fst (parseSearch (ptokens p') (rule.mkConfig false) (sigma p'))) p'.
Proof.
  intros Hlex Hok. unfold run. rewrite Hlex, Hok.
  destruct (parseSearch _ _ _) as [d' [b|e|msg]]; reflexivity.
Qed.

End Validator.

(* ===================================================================== *)
(** ** Search expressions *)
(* ===================================================================== *)

Lemma Guess_classify (s : SearchExpr) :
  Guess s = mkSearchExpr (Name s) (classify (Name s)) (Content s).
Proof. unfold Guess, classify. destruct (String.prefix "keyword" (Name s)); reflexivity. Qed.

Lemma Get_frame (key : string) (d : Detection) : fst (Get key d) = d.
Proof. unfold Get, bind, mapindex. destruct (d !! key); reflexivity. Qed.

Lemma Fields_frame (d : Detection) : fst (Fields d) = d.
Proof. reflexivity. Qed.

Lemma Get_result (key : string) (d : Detection) :
  snd (Get key d) =
    Ret ((fun v => mkSearchExpr key (classify key) v) <$> d !! key).
Proof.
  unfold Get, bind, mapindex. destruct (d !! key); cbn; [|reflexivity].
  rewrite Guess_classify. reflexivity.
Qed.

Lemma Fields_result (d : Detection) :
  snd (Fields d) =
    Ret (map (fun kv : string * value =>
                mkSearchExpr (fst kv) (classify (fst kv)) (snd kv))
             (filter (fun kv : string * value => fst kv <> "condition")
                     (map_to_list d))).
Proof.
  unfold Fields, bind, range, ret. cbn. f_equal.
  induction (map_to_list d) as [|kv kvs IH]; [reflexivity|].
  rewrite filter_cons. cbn [omap list_omap].
  destruct (decide (fst kv = "condition")) as [Heq|Hne].
  - rewrite decide_False by (intros Hc; contradiction). exact IH.
  - rewrite decide_True by exact Hne. cbn [map].
    rewrite Guess_classify. cbn. f_equal. exact IH.
Qed.

(** C7. The kind of a search expression is a function of its name alone:
    [Keywords] for a name that starts with "keyword", [Selection] for any
    other, whatever the content and whatever kind was recorded before.
    [Detection.Get] and [Detection.Fields] return the entries of the map
    classified this way. *)
Theorem classification_by_name_prefix :
  (forall s : SearchExpr,
     Guess s = mkSearchExpr (Name s) (classify (Name s)) (Content s)) /\
  (forall (name : string) (ty1 ty2 : SearchExprType) (c1 c2 : value),
     Type' (Guess (mkSearchExpr name ty1 c1)) =
     Type' (Guess (mkSearchExpr name ty2 c2))) /\
  (forall (d : Detection) (key : string),
     snd (Get key d) =
       Ret ((fun v => mkSearchExpr key (classify key) v) <$> d !! key)) /\
  (forall d : Detection,
     snd (Fields d) =
       Ret (map (fun kv : string * value =>
                   mkSearchExpr (fst kv) (classify (fst kv)) (snd kv))
                (filter (fun kv : string * value => fst kv <> "condition")
                        (map_to_list d)))).
Proof.
  split; [exact Guess_classify|].
  split; [intros; rewrite !Guess_classify; reflexivity|].
  split; [intros; apply Get_result | exact Fields_result].
Qed.

Example classify_keywords : classify "keywords" = ExprKeywords.
Proof. reflexivity. Qed.

Example classify_selection : classify "selection1" = ExprSelection.
Proof. reflexivity. Qed.

Example classify_key_words : classify "key_words" = ExprSelection.
Proof. reflexivity. Qed.

(** A map of field patterns under a keyword name is still [Keywords]. *)
Example Get_keyword_named_selection :
  snd (Get "keyword_sel" (<["keyword_sel" := selection "Image" "*\cmd.exe"]> ∅)) =
    Ret (Some (mkSearchExpr "keyword_sel" ExprKeywords
                            (selection "Image" "*\cmd.exe"))).
Proof. vm_compute. reflexivity. Qed.

(* ===================================================================== *)
(** ** The condition parser *)
(* ===================================================================== *)

Section ConditionParser.
Context `{Externals}.

(** Sequencing keeps the state when both parts do. *)
Lemma bind_frame {A B} (m : M A) (k : A -> M B) (d : Detection) :
  fst (m d) = d -> (forall a, fst (k a d) = d) -> fst (bind m k d) = d.
Proof.
  unfold bind. destruct (m d) as [d' [a|e|msg]]; cbn; intros -> Hk; auto.
Qed.

(** Sequencing returns a value only if its second part does. *)
Lemma bind_Ret {A B} (m : M A) (k : A -> M B) (d : Detection) (b : B) :
  snd (bind m k d) = Ret b ->
  exists a d', m d = (d', Ret a) /\ snd (k a d') = Ret b.
Proof.
  unfold bind. destruct (m d) as [d' [a|e|msg]]; cbn; [eauto | discriminate..].
Qed.

Lemma parseSimpleSearch_returns_no_branch (t : tokens) (c : rule.Config)
    (d : Detection) (b : Branch) :
  snd (parseSimpleSearch t c d) <> Ret b.
Proof.
  unfold parseSimpleSearch. intros Hret.
  apply bind_Ret in Hret as (a & d' & _ & Hfail). discriminate Hfail.
Qed.

(** No path through [parseSearch] returns a tree. *)
Lemma parseSearch_returns_no_branch (t : tokens) (c : rule.Config)
    (d : Detection) (b : Branch) :
  snd (parseSearch t c d) <> Ret b.
Proof.
  unfold parseSearch.
  repeat (case_match; try discriminate);
    try apply parseSimpleSearch_returns_no_branch.
  all: unfold bind, mapindex; cbn; repeat (case_match; try discriminate).
Qed.

Lemma parseSearch_fails (t : tokens) (c : rule.Config) (d : Detection) :
  succeeded (snd (parseSearch t c d)) = false.
Proof.
  pose proof (parseSearch_returns_no_branch t c d) as Hno.
  destruct (snd (parseSearch t c d)) as [b|e|msg]; [|reflexivity..].
  exfalso. exact (Hno b eq_refl).
Qed.

Lemma parseSearch_groups (t : tokens) (c : rule.Config) (d : Detection)
    (groups : list GroupSpan) :
  hasQuantifier t = false ->
  newGroupOffsetInTokens t = (groups, true, None) ->
  parseSearch t c d =
    (d, match d !! "condition" with
        | Some (VString _) =>
            Fail (Errorf "TODO - implement parsing sub-groups recursively" [])
        | _ => Panic "interface conversion: interface {} is not string"
        end).
Proof.
  unfold hasQuantifier, parseSearch. intros Hq Hgroups.
  repeat (apply orb_false_elim in Hq as [Hq ?]).
  repeat match goal with Hc : contains _ _ = false |- _ => rewrite Hc; clear Hc end.
  cbn [orb]. rewrite Hgroups. unfold bind, mapindex.
  destruct (d !! "condition") as [[]|]; reflexivity.
Qed.

(** C1, as the code has it.  On a stream without quantifier in which the
    group finder reports a group, [parseSearch] compiles nothing: it
    returns the "TODO - implement parsing sub-groups recursively" error
    (or panics, when the detection holds no condition string), and no
    tree. *)
Theorem parseSearch_groups_not_compiled (t : tokens) (c : rule.Config)
    (d : Detection) (groups : list GroupSpan) :
  hasQuantifier t = false ->
  newGroupOffsetInTokens t = (groups, true, None) ->
  succeeded (snd (parseSearch t c d)) = false /\
  (forall s, d !! "condition" = Some (VString s) ->
     parseSearch t c d =
       (d, Fail (Errorf "TODO - implement parsing sub-groups recursively" []))).
Proof.
  intros Hq Hgroups. split; [apply parseSearch_fails|].
  intros s Hcond. rewrite (parseSearch_groups t c d groups Hq Hgroups), Hcond.
  reflexivity.
Qed.

(** C2, as the code has it.  On a stream that holds [them], a wildcard
    identifier or an [all of] / [1 of] statement, [parseSearch] resolves
    nothing: it returns one of its three "TODO" errors before looking at
    the detection. *)
Theorem parseSearch_quantifier_not_resolved (t : tokens) (c : rule.Config)
    (d : Detection) :
  hasQuantifier t = true ->
  parseSearch t c d =
    (d, Fail (Errorf
                (if contains t IdentifierAll then "TODO - THEM identifier"
                 else if contains t IdentifierWithWildcard
                      then "TODO - wildcard identifier"
                      else "TODO - X of statement") [])).
Proof.
  unfold hasQuantifier, parseSearch. intros Hq.
  destruct (contains t IdentifierAll); [reflexivity|].
  destruct (contains t IdentifierWithWildcard); [reflexivity|].
  cbn [orb] in Hq. rewrite Hq. reflexivity.
Qed.

(** C3, as the code has it.  For any three identifiers, compiling
    ["A or B and C"] yields no tree, whatever the detection holds. *)
Theorem precedence_condition_not_compiled (A B C : string)
    (c : rule.Config) (d : Detection) :
  succeeded (snd (parseSearch [ident A; kwOr; ident B; kwAnd; ident C] c d))
    = false.
Proof. apply parseSearch_fails. Qed.

(** [run] never reports success. *)
Lemma run_returns_error (p : parser) : snd (run p) <> Ret tt.
Proof.
  unfold run. destruct (lex p); [|discriminate].
  destruct (collectAndValidateTokenSequences p) as [p' [[]|e|msg]];
    [|discriminate..].
  destruct (parseSearch _ _ _) as [d' [b|e|msg]] eqn:Hparse; [|discriminate..].
  exfalso. eapply parseSearch_returns_no_branch. rewrite Hparse. reflexivity.
Qed.

Section Frame.
(** The leaf builder only reads what it is given. *)
Hypothesis newRuleMatcherFromIdent_frame :
  forall (e : option SearchExpr) (lower : bool) (d : Detection),
    fst (newRuleMatcherFromIdent e lower d) = d.

Lemma parseSimpleLoop_frame (t : tokens) (c : rule.Config) (negated : bool)
    (rules : list Branch) (modifiers : list Token) (d : Detection) :
  fst (parseSimpleLoop t c negated rules modifiers d) = d.
Proof.
  revert negated rules modifiers.
  induction t as [|item rest IH]; intros negated rules modifiers;
    [reflexivity|].
  cbn [parseSimpleLoop]. destruct (T item); try apply IH.
  apply bind_frame; [apply Get_frame|]. intros e.
  apply bind_frame; [apply newRuleMatcherFromIdent_frame|]. intros r.
  apply IH.
Qed.

Lemma parseSimpleSearch_frame (t : tokens) (c : rule.Config) (d : Detection) :
  fst (parseSimpleSearch t c d) = d.
Proof.
  unfold parseSimpleSearch.
  apply bind_frame; [apply parseSimpleLoop_frame | reflexivity].
Qed.

Lemma parseSearch_frame (t : tokens) (c : rule.Config) (d : Detection) :
  fst (parseSearch t c d) = d.
Proof.
  unfold parseSearch.
  repeat (case_match; try reflexivity);
    try apply parseSimpleSearch_frame.
  unfold bind, mapindex. destruct (d !! "condition") as [[]|]; reflexivity.
Qed.

(** C9. Compilation leaves the detection map as it found it:
    [parseSearch], [parseSimpleSearch], [Detection.Get] and
    [Detection.Fields] end in the state they started from, every key
    with the content it had. *)
Theorem compilation_leaves_detection_unchanged (t : tokens)
    (c : rule.Config) (key : string) (d : Detection) :
  fst (parseSearch t c d) = d /\
  fst (parseSimpleSearch t c d) = d /\
  fst (Get key d) = d /\
  fst (Fields d) = d /\
  fst (FieldSlice d) = d.
Proof.
  repeat split.
  - apply parseSearch_frame.
  - apply parseSimpleSearch_frame.
  - apply Get_frame.
Qed.

End Frame.

End ConditionParser.

(* ===================================================================== *)
(** ** Rule groups and the rule set *)
(* ===================================================================== *)

Section RuleSets.
Context `{SigmaEnv}.

Section Checking.
Context {E : Type} `{EventChecker E}.

Lemma CheckLoop_firstmatch (r : RuleGroup) (obj : E) :
  CheckLoop r obj true [] =
    match List.find (matches obj) r with
    | Some rule => ([result_of rule], true)
    | None => ([], false)
    end.
Proof.
  induction r as [|rule rest IH]; [reflexivity|].
  cbn [CheckLoop List.find]. unfold matches at 1.
  destruct (Match (tree rule) obj); [reflexivity | exact IH].
Qed.

(** C10. With [firstmatch] set, [Check] stops at the first rule of the
    group whose tree matches the event and returns that rule's tags, id
    and title as its only result, with [true]; when no tree matches it
    returns the nil result and [false]. *)
Theorem Check_firstmatch (r : RuleGroup) (obj : E) :
  Check r obj true =
    match List.find (matches obj) r with
    | Some rule =>
        ([Result.mk (RawRule.Tags (Raw_ rule)) (RawRule.ID (Raw_ rule))
                    (RawRule.Title (Raw_ rule))], true)
    | None => ([], false)
    end.
Proof.
  unfold Check. rewrite CheckLoop_firstmatch.
  destruct (List.find (matches obj) r); reflexivity.
Qed.

(** The rules after the first match play no part in the answer. *)
Lemma Check_firstmatch_prefix (pre post : RuleGroup) (rule : Rule) (obj : E) :
  forallb (fun x => negb (matches obj x)) pre = true ->
  matches obj rule = true ->
  Check (pre ++ rule :: post) obj true = ([result_of rule], true).
Proof.
  intros Hpre Hrule. unfold Check. rewrite CheckLoop_firstmatch.
  assert (Hfind : List.find (matches obj) (pre ++ rule :: post) = Some rule).
  { induction pre as [|x pre IH]; cbn [app List.find].
    - rewrite Hrule. reflexivity.
    - cbn [forallb] in Hpre. apply andb_true_iff in Hpre as [Hx Hpre].
      apply negb_true_iff in Hx. rewrite Hx. apply IH, Hpre. }
  rewrite Hfind. reflexivity.
Qed.

Lemma Check_no_match (r : RuleGroup) (obj : E) (firstmatch : bool) :
  forallb (fun x => negb (matches obj x)) r = true ->
  Check r obj firstmatch = ([], false).
Proof.
  intros Hnone. unfold Check.
  assert (Hloop : CheckLoop r obj firstmatch [] = ([], false)).
  { induction r as [|x r IH]; [reflexivity|].
    cbn [forallb] in Hnone. apply andb_true_iff in Hnone as [Hx Hr].
    apply negb_true_iff in Hx. unfold matches in Hx.
    cbn [CheckLoop]. rewrite Hx. apply IH, Hr. }
  rewrite Hloop. reflexivity.
Qed.

End Checking.

(** The decoding loop runs through the whole batch: it appends, in order,
    every rule's entry to the list its own compile result selects, and
    touches nothing else. *)
Lemma decodedloop_routes (decoded : list Rule) (i : nat) (r : Ruleset)
    (rules : list Rule) :
  decodedloop i decoded r rules =
    (mkRuleset (dirs r) (Rules r) (Total r)
       (Unsupported r ++ omap unsupportedOf (routes i decoded))
       (Broken r ++ omap brokenOf (routes i decoded)),
     rules ++ omap compiledOf (routes i decoded)).
Proof.
  revert i r rules. induction decoded as [|dec rest IH]; intros i r rules.
  - cbn. rewrite !app_nil_r. destruct r; reflexivity.
  - cbn [decodedloop routes omap list_omap]. unfold route at 1 2 3.
    destruct (ParseDetection (RawRule.Detection_ (Raw_ dec))) as [tree [err|]].
    + destruct (isUnsupportedError err); rewrite IH; cbn;
        rewrite <- ?app_assoc; reflexivity.
    + rewrite IH. cbn. rewrite <- ?app_assoc. reflexivity.
Qed.

Lemma routes_lookup (decoded : list Rule) (i k : nat) (dec : Rule) :
  decoded !! k = Some dec -> routes i decoded !! k = Some (route (i + k) dec).
Proof.
  revert i k. induction decoded as [|x rest IH]; intros i k; [done|].
  destruct k as [|k].
  - cbn. intros [= ->]. rewrite Nat.add_0_r. reflexivity.
  - intros Hk. replace (i + S k) with (S i + k) by lia.
    exact (IH (S i) k Hk).
Qed.

Lemma routes_partition (xs : list (routed Rule)) :
  length (omap unsupportedOf xs) + length (omap brokenOf xs)
    + length (omap compiledOf xs) = length xs.
Proof.
  induction xs as [|x xs IH]; [reflexivity|].
  destruct x; cbn; lia.
Qed.

Lemma routes_length (decoded : list Rule) (i : nat) :
  length (routes i decoded) = length decoded.
Proof.
  revert i. induction decoded as [|x rest IH]; intros i; [reflexivity|].
  cbn. f_equal. apply IH.
Qed.

Lemma isUnsupportedError_spec (err : error) :
  isUnsupportedError err = true <->
  exists e, (err = ErrValue e \/ err = ErrPointer e) /\
            (e = ErrWip \/ (exists msg, e = ErrUnsupportedToken msg) \/
             (exists cond keys msg, e = ErrIncompleteDetection cond keys msg)).
Proof.
  split.
  - destruct err as [e|e|?|?]; try discriminate;
      destruct e; try discriminate; intros _; eexists; eauto 10.
  - intros (e & [-> | ->] & [-> | [[msg ->] | (cond & keys & msg & ->)]]);
      reflexivity.
Qed.

(** The type switch of the decoding loop selects exactly the error kinds
    that the specification calls unsupported constructs. *)
Lemma isUnsupportedError_kinds (err : error) :
  isUnsupportedError err = true <-> UnsupportedConstruct err.
Proof.
  split.
  - destruct err as [e|e|?|?]; try discriminate;
      destruct e; try discriminate; intros _; constructor.
  - intros []; reflexivity.
Qed.

(** C6. The decoding loop of [NewRuleset] compiles every rule of the
    batch.  A rule whose compile error is an [ErrUnsupportedToken], an
    [ErrIncompleteDetection] or an [ErrWip] (held by value or by pointer)
    ends up in [Unsupported] with its path and error, a rule with any
    other error in [Broken], and a rule that compiles in the compiled
    rules, whatever happened to the rules before it; each rule is filed
    exactly once. *)
Theorem decodedloop_routes_every_rule (decoded : list Rule) (i : nat)
    (r r' : Ruleset) (rules rules' : list Rule) :
  decodedloop i decoded r rules = (r', rules') ->
  (forall k dec tree err,
     decoded !! k = Some dec ->
     ParseDetection (RawRule.Detection_ (Raw_ dec)) = (tree, Some err) ->
     let u := UnsupportedRawRule.mk (Path dec) "" (Some err) None
                                    (Some (RefDec (i + k))) in
     (UnsupportedConstruct err -> u ∈ Unsupported r') /\
     (~ UnsupportedConstruct err -> u ∈ Broken r')) /\
  (forall k dec tree,
     decoded !! k = Some dec ->
     ParseDetection (RawRule.Detection_ (Raw_ dec)) = (tree, None) ->
     mkRule tree (Raw_ dec) (Path dec) ∈ rules') /\
  (length (Unsupported r') + length (Broken r') + length rules' =
     length (Unsupported r) + length (Broken r) + length rules
     + length decoded)%nat.
Proof.
  rewrite decodedloop_routes. intros [= <- <-]. cbn [Unsupported Broken].
  split; [|split].
  - intros k dec tree err Hk Hparse.
    apply (routes_lookup _ i) in Hk. apply list_elem_of_lookup_2 in Hk.
    unfold route in Hk. rewrite Hparse in Hk. cbn zeta.
    pose proof (isUnsupportedError_kinds err) as Hkinds.
    destruct (isUnsupportedError err); split; intros Hkind.
    + apply elem_of_app; right.
      apply list_elem_of_omap; eexists; (split; [exact Hk | reflexivity]).
    + exfalso. apply Hkind, Hkinds. reflexivity.
    + apply Hkinds in Hkind. discriminate Hkind.
    + apply elem_of_app; right.
      apply list_elem_of_omap; eexists; (split; [exact Hk | reflexivity]).
  - intros k dec tree Hk Hparse.
    apply (routes_lookup _ i) in Hk. apply list_elem_of_lookup_2 in Hk.
    unfold route in Hk. rewrite Hparse in Hk.
    apply elem_of_app; right.
    apply list_elem_of_omap; eexists; (split; [exact Hk | reflexivity]).
  - rewrite !length_app.
    pose proof (routes_partition (routes i decoded)) as Hpart.
    rewrite routes_length in Hpart. lia.
Qed.

(** Grouping leaves [Broken] alone and only appends to [Unsupported]. *)
Lemma groupLoop_keeps (rules : list Rule) (i : nat) (r : Ruleset) :
  Broken (groupLoop i rules r) = Broken r /\
  Unsupported r `prefix_of` Unsupported (groupLoop i rules r).
Proof.
  revert i r. induction rules as [|rule rest IH]; intros i r; [done|].
  cbn [groupLoop]. case_decide.
  - destruct (IH (S i)
      (mkRuleset (dirs r) (Rules r) (Total r - 1)
         (Unsupported r ++
            [UnsupportedRawRule.mk (Path rule) "Missing PRODUCT in LOGSOURCE"
                                   None None (Some (RefRule i))])
         (Broken r))) as [Hb Hu].
    split; [exact Hb|]. etrans; [|exact Hu]. by apply prefix_app_r.
  - match goal with |- context [groupLoop (S i) rest ?ra] =>
      destruct (IH (S i) ra) as [Hb Hu] end.
    split; [exact Hb | exact Hu].
Qed.

(** The rule set that [NewRuleset] returns holds, for the rules it
    decoded, exactly the broken ones in [Broken] and the unsupported ones
    in [Unsupported], after the multi-part files. *)
Lemma NewRuleset_routes_decoded (c c' : Config.t) (r : Ruleset)
    (err : option error) :
  NewRuleset c = Returned (c', Some r, err) ->
  exists (files : list string) (r0 : Ruleset) (decoded : list Rule),
    fileloop files (mkRuleset (Config.Directories c') ∅ 0 [] []) [] =
      inl (r0, decoded) /\
    Broken r = omap brokenOf (routes 0 decoded) /\
    (Unsupported r0 ++ omap unsupportedOf (routes 0 decoded))
      `prefix_of` Unsupported r.
Proof.
  unfold NewRuleset.
  destruct (Validate c) as [c1 [e|]]; [discriminate|].
  destruct (discoverRuleFilesInDir _) as [[files [e|]]|msg]; [discriminate| |discriminate].
  destruct (fileloop files _ []) as [[r0 decoded]|e] eqn:Hfiles; [|discriminate].
  rewrite decodedloop_routes.
  assert (Hb0 : Broken r0 = []).
  { clear -Hfiles.
    assert (Hgen : forall fs ra da rb db,
              fileloop fs ra da = inl (rb, db) -> Broken rb = Broken ra).
    { induction fs as [|f fs IH]; intros ra da rb db; cbn [fileloop].
      - intros [= <- _]. reflexivity.
      - repeat case_match; try discriminate; intros Hloop;
          apply IH in Hloop; exact Hloop. }
    exact (Hgen _ _ _ _ _ Hfiles). }
  case_match.
  - intros [= <- <- _]. exists files, r0, decoded.
    split; [exact Hfiles|]. cbn [Broken Unsupported]. rewrite Hb0. done.
  - intros [= <- <- _]. exists files, r0, decoded.
    split; [exact Hfiles|].
    match goal with |- context [groupLoop 0 ?rs ?ra] =>
      destruct (groupLoop_keeps rs 0 ra) as [Hb Hu] end.
    rewrite Hb. cbn [Broken Unsupported] in *. split; [by rewrite Hb0 | exact Hu].
Qed.

End RuleSets.

(* ===================================================================== *)
(** ** Worked examples *)
(* ===================================================================== *)

Section Examples.
#[local] Existing Instance sampleExternals.
#[local] Existing Instance sampleSigmaEnv.

Lemma sample_table_rejects_unsupported (t : Token) :
  sampleValidTokenSequence t TokUnsupp = false.
Proof. destruct t; reflexivity. Qed.

(** The stream of ["A or B and C"] passes the table and ends in [Eof]. *)
Lemma validator_accepts_witness :
  (forall t, sampleValidTokenSequence t TokUnsupp = false) /\
  (snd (collectAndValidateTokenSequences
          (freshParser (tokensABC ++ [eof]) detectionABC "A or B and C"))
     = Ret tt <->
   adjacent_ok TokBegin (map T (tokensABC ++ [eof])) = true /\
   last (map T (tokensABC ++ [eof])) = Some LitEof).
Proof.
  split; [exact sample_table_rejects_unsupported|].
  refine (proj1 (@validator_accepts_iff_adjacent_and_eof sampleExternals
            (freshParser (tokensABC ++ [eof]) detectionABC "A or B and C")
            (mkLexer (tokensABC ++ [eof])) eq_refl _
            sample_table_rejects_unsupported)).
  discriminate.
Defined.

Example validator_accepts_ABC :
  snd (collectAndValidateTokenSequences
         (freshParser (tokensABC ++ [eof]) detectionABC "A or B and C"))
    = Ret tt.
Proof. vm_compute. reflexivity. Qed.

(** Without the final [Eof] the same stream is incomplete. *)
Example validator_rejects_unterminated :
  snd (collectAndValidateTokenSequences
         (freshParser tokensABC detectionABC "A or B and C"))
    = Fail (Errorf "last element should be EOF, got %s" [ArgTok Identifier]).
Proof. vm_compute. reflexivity. Qed.

(** Two identifiers in a row, ["selection keyword"] of the test data. *)
Example validator_rejects_two_identifiers :
  snd (collectAndValidateTokenSequences
         (freshParser [ident "selection"; ident "keyword"; eof] ∅ ""))
    = Fail (Errorf "invalid token sequence %s -> %s. Value: %s"
              [ArgTok Identifier; ArgTok Identifier; ArgStr "keyword"]).
Proof. vm_compute. reflexivity. Qed.

(** The pipe of an aggregation stops the validator; [count] and the end
    of input stay in the lexer. *)
Lemma unsupported_token_witness :
  exists p',
    collectAndValidateTokenSequences
      (freshParser tokensAggregation detectionAggregation "") =
      (p', Fail (ErrValue (ErrUnsupportedToken "|"))) /\
    ptokens p' = [ident "selection"] /\
    lex p' = Some (mkLexer [ident "count"; eof]).
Proof.
  refine (@unsupported_token_fails_immediately sampleExternals
            (freshParser tokensAggregation detectionAggregation "")
            (mkLexer tokensAggregation)
            [ident "selection"] [ident "count"; eof] (mkItem TokUnsupp "|")
            eq_refl eq_refl eq_refl _ eq_refl).
  intros Hin. apply list_elem_of_singleton in Hin. discriminate Hin.
Defined.

(** The stream of the condition ["A"]: validation succeeds and hands on
    the identifier alone, a stream without [Eof]. *)
Lemma eof_not_in_collected_stream :
  snd (collectAndValidateTokenSequences
         (freshParser [ident "A"; eof] detectionABC "A")) = Ret tt /\
  ptokens (fst (collectAndValidateTokenSequences
                  (freshParser [ident "A"; eof] detectionABC "A")))
    = [ident "A"] /\
  ~ TokenStreamInvariant
      (ptokens (fst (collectAndValidateTokenSequences
                       (freshParser [ident "A"; eof] detectionABC "A")))).
Proof.
  split; [vm_compute; reflexivity|].
  split; [vm_compute; reflexivity|].
  intros (_ & Hcount & _). vm_compute in Hcount. discriminate Hcount.
Qed.

Lemma collected_stream_witness :
  contains [] LitEof = false /\
  TokBegin <> LitEof /\
  sampleValidTokenSequence TokBegin LitEof = false /\
  ptokens (fst (collectAndValidateTokenSequences
                  (freshParser [ident "A"; eof] detectionABC "A"))) <> [] /\
  ptokens (fst (collectAndValidateTokenSequences
                  (freshParser [ident "A"; eof] detectionABC "A")))
    = [] ++ collected [ident "A"; eof] /\
  contains (ptokens (fst (collectAndValidateTokenSequences
                            (freshParser [ident "A"; eof] detectionABC "A"))))
           LitEof = false /\
  previous (fst (collectAndValidateTokenSequences
                   (freshParser [ident "A"; eof] detectionABC "A"))) = LitEof.
Proof.
  assert (Hstart : TokBegin <> LitEof) by discriminate.
  split; [reflexivity|]. split; [exact Hstart|]. split; [reflexivity|].
  refine (@collected_stream_has_no_eof sampleExternals
            (freshParser [ident "A"; eof] detectionABC "A") _
            (mkLexer [ident "A"; eof]) eq_refl eq_refl Hstart eq_refl _).
  vm_compute. reflexivity.
Defined.

(** The nested groups of [detection6]. *)
Lemma parseSearch_groups_witness :
  hasQuantifier tokens6 = false /\
  newGroupOffsetInTokens tokens6 = ([mkGroupSpan 0 18 0], true, None) /\
  succeeded (snd (parseSearch tokens6 defaultConfig detection6)) = false /\
  parseSearch tokens6 defaultConfig detection6 =
    (detection6,
     Fail (Errorf "TODO - implement parsing sub-groups recursively" [])).
Proof.
  split; [reflexivity|]. split; [reflexivity|].
  pose proof (@parseSearch_groups_not_compiled sampleExternals tokens6
                defaultConfig detection6 [mkGroupSpan 0 18 0]
                eq_refl eq_refl) as [Hfails Herror].
  split; [exact Hfails|].
  eapply Herror. vm_compute. reflexivity.
Defined.

(** ["all of them"] and ["1 of filter*"]. *)
Lemma parseSearch_quantifier_witness :
  hasQuantifier tokensThem = true /\
  parseSearch tokensThem defaultConfig detectionABC =
    (detectionABC, Fail (Errorf "TODO - THEM identifier" [])).
Proof.
  split; [reflexivity|].
  exact (@parseSearch_quantifier_not_resolved sampleExternals tokensThem
           defaultConfig detectionABC eq_refl).
Defined.

Example parseSearch_one_of_wildcard :
  parseSearch tokensOneOf defaultConfig detectionABC =
    (detectionABC, Fail (Errorf "TODO - wildcard identifier" [])).
Proof. vm_compute. reflexivity. Qed.

(** ["A or B and C"] with all three names in the detection. *)
Example parseSearch_A_or_B_and_C :
  parseSearch tokensABC defaultConfig detectionABC =
    (detectionABC, Fail (Errorf "WIP" [])).
Proof. vm_compute. reflexivity. Qed.

(** The loop of [parseSimpleSearch] does collect the operands and their
    operators before the result is dropped. *)
Example parseSimpleLoop_A_or_B_and_C :
  snd (parseSimpleLoop tokensABC defaultConfig false [] [TokNil] detectionABC) =
    Ret (false,
         [Leaf (mkSearchExpr "A" ExprSelection (selection "Field1" "aaa")) false;
          Leaf (mkSearchExpr "B" ExprSelection (selection "Field2" "bbb")) false;
          Leaf (mkSearchExpr "C" ExprSelection (selection "Field3" "ccc")) false],
         [TokNil; KeywordOr; KeywordAnd]).
Proof. vm_compute. reflexivity. Qed.

Example run_detection6 :
  snd (run (freshParser (tokens6 ++ [eof]) detection6 "")) =
    Fail (Errorf "TODO - implement parsing sub-groups recursively" []).
Proof. vm_compute. reflexivity. Qed.

Lemma sample_builder_frame (e : option SearchExpr) (lower : bool)
    (d : Detection) :
  fst (sampleRuleMatcherFromIdent e lower d) = d.
Proof. destruct e; reflexivity. Qed.

Lemma detection_unchanged_witness :
  (forall e lower d, fst (sampleRuleMatcherFromIdent e lower d) = d) /\
  fst (parseSearch tokensABC defaultConfig detectionABC) = detectionABC /\
  fst (parseSimpleSearch tokensABC defaultConfig detectionABC) = detectionABC /\
  fst (Get "A" detectionABC) = detectionABC /\
  fst (Fields detectionABC) = detectionABC /\
  fst (FieldSlice detectionABC) = detectionABC.
Proof.
  split; [exact sample_builder_frame|].
  exact (@compilation_leaves_detection_unchanged sampleExternals
           sample_builder_frame tokensABC defaultConfig "A" detectionABC).
Defined.

(** An event from [cmd.exe]: the second rule of the group answers, the
    third is not consulted. *)
Example Check_firstmatch_cmd :
  Check sampleGroup eventCmd true =
    ([Result.mk ["attack.execution"] "1" "cmd"], true).
Proof. vm_compute. reflexivity. Qed.

Example Check_all_cmd :
  Check sampleGroup eventCmd false =
    ([Result.mk ["attack.execution"] "1" "cmd"; Result.mk [] "5" "cmd again"],
     true).
Proof. vm_compute. reflexivity. Qed.

Example Check_firstmatch_notepad :
  Check sampleGroup eventNotepad true = ([], false).
Proof. vm_compute. reflexivity. Qed.

(** The batch of four: the second rule goes to [Unsupported], the third
    to [Broken], and the fourth is still compiled. *)
Lemma decodedloop_routes_witness :
  UnsupportedConstruct (ErrValue (ErrUnsupportedToken "selection | count() > 10")) /\
  UnsupportedRawRule.mk "r2.yml" ""
    (Some (ErrValue (ErrUnsupportedToken "selection | count() > 10")))
    None (Some (RefDec 1))
    ∈ Unsupported (fst (decodedloop 0 sampleDecoded sampleRuleset [])) /\
  ~ UnsupportedConstruct (ErrValue ErrMissingCondition) /\
  UnsupportedRawRule.mk "r3.yml" "" (Some (ErrValue ErrMissingCondition))
    None (Some (RefDec 2))
    ∈ Broken (fst (decodedloop 0 sampleDecoded sampleRuleset [])) /\
  mkRule (Some [("Image", "powershell.exe")])
    (rawRule "4" "powershell" ["attack.t1086"] "windows" detectionPowershell)
    "r4.yml"
    ∈ snd (decodedloop 0 sampleDecoded sampleRuleset []) /\
  (length (Unsupported (fst (decodedloop 0 sampleDecoded sampleRuleset [])))
   + length (Broken (fst (decodedloop 0 sampleDecoded sampleRuleset [])))
   + length (snd (decodedloop 0 sampleDecoded sampleRuleset []))
   = length (Unsupported sampleRuleset) + length (Broken sampleRuleset)
     + length (@nil Rule) + length sampleDecoded)%nat.
Proof.
  destruct (@decodedloop_routes_every_rule sampleSigmaEnv
              sampleDecoded 0 sampleRuleset
              (fst (decodedloop 0 sampleDecoded sampleRuleset [])) []
              (snd (decodedloop 0 sampleDecoded sampleRuleset []))
              (surjective_pairing _)) as (Herr & Hok & Hcount).
  assert (Hbroken : ~ UnsupportedConstruct (ErrValue ErrMissingCondition))
    by (intros Hkind; inversion Hkind).
  split; [constructor|]. split; [|split; [exact Hbroken|split; [|split; [|exact Hcount]]]].
  - refine (proj1 (Herr 1
      (mkRule None (rawRule "2" "aggregation" [] "windows" detectionAggregation)
              "r2.yml")
      None (ErrValue (ErrUnsupportedToken "selection | count() > 10"))
      eq_refl _) _); [vm_compute; reflexivity | constructor].
  - refine (proj2 (Herr 2
      (mkRule None (rawRule "3" "no condition" [] "windows" detectionNoCondition)
              "r3.yml")
      None (ErrValue ErrMissingCondition) eq_refl _) Hbroken).
    vm_compute. reflexivity.
  - refine (Hok 3
      (mkRule None
         (rawRule "4" "powershell" ["attack.t1086"] "windows" detectionPowershell)
         "r4.yml")
      (Some [("Image", "powershell.exe")]) eq_refl _).
    vm_compute. reflexivity.
Defined.

Example decodedloop_sample_paths :
  map UnsupportedRawRule.Path
      (Unsupported (fst (decodedloop 0 sampleDecoded sampleRuleset [])))
    = ["r2.yml"] /\
  map UnsupportedRawRule.Path
      (Broken (fst (decodedloop 0 sampleDecoded sampleRuleset [])))
    = ["r3.yml"] /\
  map Path (snd (decodedloop 0 sampleDecoded sampleRuleset []))
    = ["r1.yml"; "r4.yml"].
Proof. vm_compute. repeat split. Qed.

(** With no rule file at all [NewRuleset] still returns a rule set, and the
    "unable to parse any rules" error with it. *)
Example NewRuleset_no_files :
  NewRuleset (Config.mk ["rules"]) =
    Returned
      (Config.mk ["rules"], Some (mkRuleset ["rules"] ∅ 0 [] []),
       Some (Errorf "unable to parse any rules from %+v" [ArgStrs ["rules"]])).
Proof. vm_compute. reflexivity. Qed.

End Examples.


(* ===================================================================== *)
(** ** More on the detection map *)
(* ===================================================================== *)

Lemma fst_filter_map_to_list (d : Detection) :
  map Name
      (map (fun kv : string * value =>
              mkSearchExpr (fst kv) (classify (fst kv)) (snd kv))
           (filter (fun kv : string * value => fst kv <> "condition")
                   (map_to_list d))) =
  filter (fun k : string => k <> "condition") (map fst (map_to_list d)).
Proof.
  induction (map_to_list d) as [|kv kvs IH]; [reflexivity|].
  cbn [map]. rewrite !filter_cons.
  destruct (decide (fst kv <> "condition")); cbn [map Name]; rewrite IH;
    reflexivity.
Qed.

Lemma FieldSlice_result (d : Detection) :
  snd (FieldSlice d) =
    Ret (filter (fun k : string => k <> "condition") (map fst (map_to_list d))).
Proof.
  unfold FieldSlice, bind. pose proof (Fields_result d) as Hf.
  destruct (Fields d) as [d' o]. cbn [snd] in Hf. subst o. cbn.
  rewrite fst_filter_map_to_list. reflexivity.
Qed.

(** X1. [FieldSlice] returns every key of the detection map other than
    ["condition"], each exactly once. *)
Theorem FieldSlice_keys (d : Detection) :
  exists names : list string,
    snd (FieldSlice d) = Ret names /\
    NoDup names /\
    forall k, k ∈ names <-> k <> "condition" /\ is_Some (d !! k).
Proof.
  eexists. split; [apply FieldSlice_result|]. split.
  - apply NoDup_filter, NoDup_fst_map_to_list.
  - intros k. rewrite list_elem_of_filter, list_elem_of_fmap. split.
    + intros [Hk [[k' v] [-> Hin]]]. split; [exact Hk|].
      apply elem_of_map_to_list in Hin. eauto.
    + intros [Hk [v Hv]]. split; [exact Hk|].
      exists (k, v). split; [reflexivity|]. by apply elem_of_map_to_list.
Qed.

(** X2. [Fields] and [Get] agree: an expression is sent by [Fields] exactly
    when its name is not ["condition"] and [Get] returns it for that name. *)
Theorem Fields_agree_with_Get (d : Detection) :
  exists es : list SearchExpr,
    snd (Fields d) = Ret es /\
    forall e, e ∈ es <->
              Name e <> "condition" /\ snd (Get (Name e) d) = Ret (Some e).
Proof.
  eexists. split; [apply Fields_result|].
  intros e. rewrite Get_result, list_elem_of_fmap. split.
  - intros [[k v] [-> Hin]]. apply list_elem_of_filter in Hin as [Hk Hin].
    apply elem_of_map_to_list in Hin. cbn in *. split; [exact Hk|].
    rewrite Hin. reflexivity.
  - intros [Hk Hget]. destruct (d !! Name e) as [v|] eqn:Hv; [|discriminate].
    cbn in Hget. injection Hget as <-. cbn in *.
    exists (Name e, v). cbn. split; [destruct e; reflexivity|].
    apply list_elem_of_filter. split; [exact Hk|].
    by apply elem_of_map_to_list.
Qed.

(** X3. Storing an entry and asking for it: after [d[key] = v], [Get key]
    returns the expression named [key] with content [v], classified by the
    name; for every other key [Get] answers as before. *)
Theorem Get_after_insert (d : Detection) (key key' : string) (v : value) :
  snd (Get key' (<[key := v]> d)) =
    if decide (key' = key)
    then Ret (Some (mkSearchExpr key (classify key) v))
    else snd (Get key' d).
Proof.
  rewrite !Get_result. destruct (decide (key' = key)) as [->|Hne].
  - rewrite lookup_insert_eq. reflexivity.
  - rewrite lookup_insert_ne by congruence. reflexivity.
Qed.

(** X4. [Condition] succeeds exactly when the key ["condition"] holds a
    string, and then returns that string; in every other case it returns the
    empty string with an error, whose text is "missing detection key" only
    for the empty map.  [GetCondition] is the string part of that result. *)
Theorem Condition_result (r : RawRule.t) :
  Condition r =
    match RawRule.Detection_ r !! "condition" with
    | Some (VString val) => (val, None)
    | _ =>
        ("", Some (Errorf (if decide (RawRule.Detection_ r = ∅)
                           then "missing detection key"
                           else "condition key missing or not a string value")
                          []))
    end /\
  GetCondition r = fst (Condition r).
Proof.
  split.
  - unfold Condition.
    destruct (decide (size (RawRule.Detection_ r) = 0)) as [Hsz|Hsz].
    + apply map_size_empty_iff in Hsz. rewrite Hsz, lookup_empty.
      rewrite decide_True by reflexivity. reflexivity.
    + assert (Hne : RawRule.Detection_ r <> ∅).
      { intros Hd. apply Hsz. rewrite Hd. apply map_size_empty. }
      rewrite (decide_False (P := RawRule.Detection_ r = ∅)) by exact Hne.
      destruct (RawRule.Detection_ r !! "condition") as [[]|]; reflexivity.
  - unfold GetCondition. destruct (Condition r) as [c [e|]] eqn:Hc; [|reflexivity].
    cbn. unfold Condition in Hc. repeat case_match; congruence.
Qed.

(* ===================================================================== *)
(** ** More on rule groups *)
(* ===================================================================== *)

Section CheckingAll.
Context `{SigmaEnv} {E : Type} `{EventChecker E}.

Lemma CheckLoop_all (r : RuleGroup) (obj : E) (res : Results) :
  CheckLoop r obj false res =
    (res ++ map result_of (List.filter (matches obj) r), false).
Proof.
  revert res. induction r as [|rule rest IH]; intros res.
  - cbn. rewrite app_nil_r. reflexivity.
  - cbn [CheckLoop List.filter]. unfold matches at 1.
    destruct (Match (tree rule) obj).
    + rewrite andb_false_r, IH. cbn [map]. rewrite <- app_assoc. reflexivity.
    + apply IH.
Qed.

Lemma filter_nonempty_existsb {A} (f : A -> bool) (l : list A)
    (g : A -> Result.t) :
  Nat.ltb 0 (length (map g (List.filter f l))) = existsb f l.
Proof.
  induction l as [|x l IH]; [reflexivity|].
  cbn [List.filter existsb]. destruct (f x); [reflexivity | exact IH].
Qed.

(** X5. Without [firstmatch], [Check] returns the tags, id and title of
    every rule of the group whose tree matches the event, in the order of
    the group, and the flag tells whether there is one. *)
Theorem Check_all_matches (r : RuleGroup) (obj : E) :
  Check r obj false =
    (map result_of (List.filter (matches obj) r), existsb (matches obj) r).
Proof.
  unfold Check. rewrite CheckLoop_all. cbn [app].
  rewrite filter_nonempty_existsb.
  destruct (existsb (matches obj) r) eqn:Hex; [reflexivity|].
  f_equal. induction r as [|x r IH]; [reflexivity|].
  cbn [existsb] in Hex. apply orb_false_elim in Hex as [Hx Hr].
  cbn [List.filter]. rewrite Hx. apply IH, Hr.
Qed.

(** X6. The two modes agree: the answer with [firstmatch] is the first
    entry of the answer without it, with the same flag. *)
Theorem Check_firstmatch_is_head (r : RuleGroup) (obj : E) :
  Check r obj true =
    (take 1 (fst (Check r obj false)), snd (Check r obj false)).
Proof.
  unfold Check at 1. rewrite CheckLoop_firstmatch.
  unfold Check. rewrite CheckLoop_all. cbn [app].
  rewrite filter_nonempty_existsb.
  induction r as [|x r IH]; [reflexivity|].
  cbn [List.find List.filter existsb]. destruct (matches obj x); [reflexivity|].
  cbn [orb]. exact IH.
Qed.

End CheckingAll.

(* ===================================================================== *)
(** ** Loading rules: configuration and discovery *)
(* ===================================================================== *)

Lemma append_assoc (s1 s2 s3 : string) :
  String.append s1 (String.append s2 s3) =
    String.append (String.append s1 s2) s3.
Proof.
  induction s1 as [|a s1 IH]; [reflexivity|].
  change (String a (String.append s1 (String.append s2 s3)) =
          String a (String.append (String.append s1 s2) s3)).
  f_equal. exact IH.
Qed.

Lemma append_nil_r (s : string) : String.append s "" = s.
Proof.
  induction s as [|a s IH]; [reflexivity|].
  change (String a (String.append s "") = String a s).
  f_equal. exact IH.
Qed.

Lemma rev_app_append (s1 s2 : string) :
  String.rev_app s1 s2 = String.append (String.rev_app s1 "") s2.
Proof.
  revert s2. induction s1 as [|a s1 IH]; intros s2; [reflexivity|].
  change (String.rev_app s1 (String a s2) =
          String.append (String.rev_app s1 (String a "")) s2).
  rewrite IH, (IH (String a "")), <- append_assoc. reflexivity.
Qed.

Lemma rev_cons (a : ascii) (s : string) :
  String.rev (String a s) = String.append (String.rev s) (String a "").
Proof.
  unfold String.rev.
  change (String.rev_app (String a s) "") with (String.rev_app s (String a "")).
  apply rev_app_append.
Qed.

Lemma rev_append (s1 s2 : string) :
  String.rev (String.append s1 s2) =
    String.append (String.rev s2) (String.rev s1).
Proof.
  induction s1 as [|a s1 IH].
  - change (String.rev s2 = String.append (String.rev s2) "").
    rewrite append_nil_r. reflexivity.
  - change (String.append (String a s1) s2)
      with (String a (String.append s1 s2)).
    rewrite !rev_cons, IH, append_assoc. reflexivity.
Qed.

Lemma rev_involutive (s : string) : String.rev (String.rev s) = s.
Proof.
  induction s as [|a s IH]; [reflexivity|].
  rewrite rev_cons, rev_append, IH. reflexivity.
Qed.

Lemma prefix_append (p s : string) :
  String.prefix p s = true <-> exists q, s = String.append p q.
Proof.
  revert s. induction p as [|a p IH]; intros s.
  - destruct s; cbn; split; eauto.
  - destruct s as [|b s]; cbn.
    + split; [discriminate | intros [q Hq]; discriminate].
    + destruct (Ascii.ascii_dec a b) as [->|Hne].
      * rewrite IH. split; intros [q Hq]; exists q.
        -- change (String b s = String b (String.append p q)). by rewrite Hq.
        -- change (String b s = String b (String.append p q)) in Hq.
           by injection Hq.
      * split; [discriminate|]. intros [q Hq].
        change (String b s = String a (String.append p q)) in Hq. congruence.
Qed.

(** [HasSuffix] holds exactly of the strings that end in the suffix. *)
Lemma HasSuffix_append (s suffix : string) :
  HasSuffix s suffix = true <-> exists stem, s = String.append stem suffix.
Proof.
  unfold HasSuffix. rewrite prefix_append. split.
  - intros [q Hq]. exists (String.rev q).
    rewrite <- (rev_involutive s), Hq, rev_append, rev_involutive. reflexivity.
  - intros [stem ->]. exists (String.rev stem). apply rev_append.
Qed.

Section Discovery.
Context `{SigmaEnv}.

Lemma ExpandHome_result (path : string) :
  ExpandHome path =
    if startsWithTilde path
    then match snd userCurrent with
         | Some err => (path, Some err)
         | None => (expanded path, None)
         end
    else (path, None).
Proof.
  unfold ExpandHome, expanded, startsWithTilde.
  destruct path as [|c rest]; [reflexivity|].
  destruct (Ascii.eqb c "~"%char); cbn [negb]; [|reflexivity].
  destruct userCurrent as [home [err|]]; reflexivity.
Qed.

Lemma expanded_plain (path : string) :
  startsWithTilde path = false -> expanded path = path.
Proof.
  unfold expanded, startsWithTilde. destruct path as [|c rest]; [reflexivity|].
  intros ->. reflexivity.
Qed.

Lemma ValidateLoop_result (directories : list string) :
  ValidateLoop directories =
    (match snd userCurrent with
     | Some _ => directories
     | None => map expanded directories
     end,
     if existsb startsWithTilde directories then snd userCurrent else None).
Proof.
  induction directories as [|dir rest IH]; [destruct (snd userCurrent); reflexivity|].
  cbn [ValidateLoop existsb map]. rewrite ExpandHome_result, IH.
  destruct (startsWithTilde dir) eqn:Htilde; cbn [orb].
  - destruct (snd userCurrent) as [err|]; [reflexivity|].
    destruct (existsb startsWithTilde rest); reflexivity.
  - rewrite (expanded_plain dir Htilde).
    destruct (snd userCurrent); reflexivity.
Qed.

(** X7. [Validate] fails when there is no directory, and otherwise only
    when some directory starts with a tilde and the current user cannot be
    found.  After a failure the configuration is as it was; after a success
    every directory that starts with a tilde is replaced by the join of the
    home directory and the rest of it, and the others are kept. *)
Theorem Validate_result (c : Config.t) :
  Validate c =
    (Config.mk (match snd userCurrent with
                | Some _ => Config.Directories c
                | None => map expanded (Config.Directories c)
                end),
     match Config.Directories c with
     | [] => Some (Errorf "Missing sigma rule directory" [])
     | directories =>
         if existsb startsWithTilde directories then snd userCurrent else None
     end).
Proof.
  unfold Validate. destruct c as [[|dir rest]].
  - cbn. destruct (snd userCurrent); reflexivity.
  - cbn [Config.Directories]. rewrite ValidateLoop_result. reflexivity.
Qed.

Lemma walkFiles_result (vs : list (string * option bool * option error))
    (out : list string) :
  match head (omap visitStop vs) with
  | None =>
      walkFiles vs out =
        Returned (out ++ map visitPath (List.filter keptVisit vs), None)
  | Some (inl msg) => walkFiles vs out = Panicked msg
  | Some (inr err) => exists out', walkFiles vs out = Returned (out', Some err)
  end.
Proof.
  revert out. induction vs as [|[[path [isDir|]] [e|]] rest IH]; intros out.
  - cbn. rewrite app_nil_r. reflexivity.
  - cbn. eauto.
  - cbn [omap list_omap visitStop walkFiles].
    change (List.filter keptVisit ((path, Some isDir, None) :: rest))
      with (if negb isDir && HasSuffix path "yml"
            then (path, Some isDir, None) :: List.filter keptVisit rest
            else List.filter keptVisit rest).
    destruct (negb isDir && HasSuffix path "yml").
    + specialize (IH (out ++ [path])).
      destruct (head (omap visitStop rest)) as [[msg|err]|]; [exact IH..|].
      rewrite IH. cbn [map]. unfold visitPath at 2. cbn [fst].
      rewrite <- app_assoc. reflexivity.
    + apply IH.
  - reflexivity.
  - reflexivity.
Qed.

Lemma discoverLoop_result (directories : list string) (out : list string) :
  discoverLoop directories out =
    match head (omap visitStop (visits directories)) with
    | None =>
        Returned
          (out ++ map visitPath (List.filter keptVisit (visits directories)),
           None)
    | Some (inl msg) => Panicked msg
    | Some (inr err) => Returned ([], Some err)
    end.
Proof.
  revert out. induction directories as [|dir rest IH]; intros out.
  - cbn. rewrite app_nil_r. reflexivity.
  - cbn [discoverLoop]. unfold visits in *. cbn [map concat].
    rewrite omap_app, head_app, List.filter_app, map_app.
    pose proof (walkFiles_result (filepathWalk dir) out) as Hwalk.
    destruct (head (omap visitStop (filepathWalk dir))) as [[msg|err]|].
    + rewrite Hwalk. reflexivity.
    + destruct Hwalk as [out' ->]. reflexivity.
    + rewrite Hwalk, IH, <- app_assoc. reflexivity.
Qed.

(** X8. [discoverRuleFilesInDir] walks the directories in order, up to the
    first visit that comes without [FileInfo] or with an error.  If there is
    none it returns the paths of the visits that are not directories and end
    in "yml", in the order of the walks.  At a visit without [FileInfo] (a
    directory that does not exist) it panics, since the callback asks
    [info.IsDir()] before it looks at the error; at a visit with [FileInfo]
    and an error it returns no path and that error. *)
Theorem discoverRuleFilesInDir_result (directories : list string) :
  discoverRuleFilesInDir directories =
    match head (omap visitStop (visits directories)) with
    | None =>
        Returned
          (map visitPath (List.filter keptVisit (visits directories)), None)
    | Some (inl msg) => Panicked msg
    | Some (inr err) => Returned ([], Some err)
    end.
Proof. unfold discoverRuleFilesInDir. apply discoverLoop_result. Qed.

(** X9. Every path that [discoverRuleFilesInDir] returns ends in the three
    letters "yml" (a dot is not asked for) and is the path of a visit that
    is not a directory. *)
Theorem discovered_files_end_in_yml (directories : list string) :
  match discoverRuleFilesInDir directories with
  | Returned (files, _) =>
      Forall (fun path =>
                (exists stem, path = String.append stem "yml") /\
                exists err, (path, Some false, err) ∈ visits directories)
             files
  | Panicked _ => True
  end.
Proof.
  unfold discoverRuleFilesInDir. rewrite discoverLoop_result.
  destruct (head (omap visitStop (visits directories))) as [[msg|err]|];
    [exact I | constructor |].
  cbn [app]. apply Forall_forall. intros path Hin.
  apply list_elem_of_In, in_map_iff in Hin as [[[p info] err] [<- Hin]].
  apply filter_In in Hin as [Hin Hkept].
  unfold keptVisit, visitPath in *. cbn [fst snd] in *.
  destruct info as [isDir|]; [|discriminate].
  apply andb_true_iff in Hkept as [Hdir Hsuffix].
  apply negb_true_iff in Hdir. subst isDir.
  split; [by apply HasSuffix_append|].
  exists err. by apply list_elem_of_In.
Qed.

End Discovery.

(* ===================================================================== *)
(** ** Loading rules: decoding and grouping *)
(* ===================================================================== *)

Section LoadingRules.
Context `{SigmaEnv}.

(** The first loop of [NewRuleset] in closed form. *)
Lemma fileloop_closed_form (files : list string) (r : Ruleset)
    (decoded : list Rule) :
  fileloop files r decoded =
    match head (omap fileFails files) with
    | Some err => inr err
    | None =>
        inl (mkRuleset (dirs r) (Rules r) (Total r)
               (Unsupported r ++
                  map multiPartEntry (List.filter isMultiPart files))
               (Broken r),
             decoded ++
               map decodedRule
                   (List.filter (fun path => negb (isMultiPart path)) files))
    end.
Proof.
  revert r decoded. induction files as [|path rest IH]; intros r decoded.
  - cbn. rewrite !app_nil_r. destruct r; reflexivity.
  - destruct (ReadFile path) as [data [err|]] eqn:Hread.
    { cbn [fileloop omap list_omap]. unfold fileFails at 1.
      rewrite Hread. reflexivity. }
    assert (Hmulti : isMultiPart path = Contains data "---")
      by (unfold isMultiPart; rewrite Hread; reflexivity).
    assert (Hfails : fileFails path =
                     if Contains data "---" then None
                     else snd (yamlUnmarshal data))
      by (unfold fileFails; rewrite Hread; reflexivity).
    assert (Hrule : decodedRule path = mkRule None (fst (yamlUnmarshal data)) path)
      by (unfold decodedRule; rewrite Hread; reflexivity).
    cbn [fileloop omap list_omap List.filter].
    rewrite Hread, Hfails, Hmulti.
    destruct (Contains data "---"); cbn [negb].
    + rewrite IH. destruct (head (omap fileFails rest)); [reflexivity|].
      cbn [add_unsupported dirs Rules Total Unsupported Broken map].
      rewrite <- app_assoc. reflexivity.
    + destruct (yamlUnmarshal data) as [s [err|]]; cbn [fst snd head] in *;
        [reflexivity|].
      rewrite IH. destruct (head (omap fileFails rest)); [reflexivity|].
      cbn [map]. rewrite Hrule, <- app_assoc. reflexivity.
Qed.

(** X10. The first loop of [NewRuleset] gives up at the first file that
    cannot be read or, being a single document, does not decode, and
    returns that error.  Otherwise it reports every file that holds "---"
    as "Multi-part YAML" without decoding it and decodes all the others,
    both in the order of the files; nothing else of the rule set changes
    and no decoded rule has a tree yet. *)
Theorem fileloop_result (files : list string) (r : Ruleset)
    (decoded : list Rule) :
  fileloop files r decoded =
    match head (omap fileFails files) with
    | Some err => inr err
    | None =>
        inl (mkRuleset (dirs r) (Rules r) (Total r)
               (Unsupported r ++
                  map multiPartEntry (List.filter isMultiPart files))
               (Broken r),
             decoded ++
               map decodedRule
                   (List.filter (fun path => negb (isMultiPart path)) files))
    end.
Proof. exact (fileloop_closed_form files r decoded). Qed.

Lemma filter_hasProduct_cons (k : string) (rule : Rule) (rest : list Rule) :
  List.filter (hasProduct k) (rule :: rest) =
    if decide (product rule = k)
    then rule :: List.filter (hasProduct k) rest
    else List.filter (hasProduct k) rest.
Proof.
  cbn [List.filter]. unfold hasProduct at 1.
  destruct (decide (product rule = k)) as [Heq|Hne].
  - rewrite bool_decide_eq_true_2 by exact Heq. reflexivity.
  - rewrite bool_decide_eq_false_2 by exact Hne. reflexivity.
Qed.

Lemma RuleMap_lookup_insert (m : RuleMap) (k k' : string) (g : RuleGroup) :
  <[k := g]> m !! k' = if decide (k = k') then Some g else m !! k'.
Proof. unfold RuleMap in *. apply lookup_insert. Qed.

(** The groups after the grouping loop. *)
Lemma groupLoop_lookup (rules : list Rule) (i : nat) (r : Ruleset)
    (k : string) :
  Rules (groupLoop i rules r) !! k =
    if decide (k = "") then Rules r !! k
    else match Rules r !! k, List.filter (hasProduct k) rules with
         | Some g0, g => Some (g0 ++ g)
         | None, [] => None
         | None, g => Some g
         end.
Proof.
  revert i r. induction rules as [|rule rest IH]; intros i r.
  - cbn. destruct (decide (k = "")); [reflexivity|].
    destruct (Rules r !! k); [rewrite app_nil_r|]; reflexivity.
  - cbn [groupLoop]. fold (product rule). rewrite filter_hasProduct_cons.
    destruct (decide (product rule = "")) as [Hp|Hp].
    + rewrite IH. cbn [Rules].
      destruct (decide (k = "")) as [Hk|Hk]; [reflexivity|].
      rewrite decide_False by congruence. reflexivity.
    + rewrite IH. cbn [Rules]. rewrite RuleMap_lookup_insert.
      destruct (decide (k = "")) as [Hk|Hk].
      * rewrite decide_False by congruence. reflexivity.
      * destruct (decide (product rule = k)) as [<-|Hne]; [|reflexivity].
        destruct (Rules r !! product rule) as [g0|];
          [rewrite <- app_assoc|]; reflexivity.
Qed.

(** X11. After the grouping loop the group under a product holds the group
    that was there before followed by the rules of that product, in the
    order of the rules; a product without rules gets no group, and the
    rules without product are filed under no key. *)
Theorem groupLoop_groups (rules : list Rule) (i : nat) (r : Ruleset)
    (k : string) :
  Rules (groupLoop i rules r) !! k =
    if decide (k = "") then Rules r !! k
    else match Rules r !! k, List.filter (hasProduct k) rules with
         | Some g0, g => Some (g0 ++ g)
         | None, [] => None
         | None, g => Some g
         end.
Proof. exact (groupLoop_lookup rules i r k). Qed.

(** The other fields after the grouping loop. *)
Lemma groupLoop_fields (rules : list Rule) (i : nat) (r : Ruleset) :
  Unsupported (groupLoop i rules r) = Unsupported r ++ missingProducts i rules /\
  Total (groupLoop i rules r) =
    (Total r - Z.of_nat (length (missingProducts i rules)))%Z /\
  Broken (groupLoop i rules r) = Broken r /\
  dirs (groupLoop i rules r) = dirs r.
Proof.
  revert i r. induction rules as [|rule rest IH]; intros i r.
  - cbn. rewrite app_nil_r, Z.sub_0_r. done.
  - cbn [groupLoop missingProducts]. fold (product rule).
    destruct (decide (product rule = "")) as [Hp|Hp].
    + destruct (IH (S i)
        (mkRuleset (dirs r) (Rules r) (Total r - 1)
           (Unsupported r ++
              [UnsupportedRawRule.mk (Path rule) "Missing PRODUCT in LOGSOURCE"
                                     None None (Some (RefRule i))])
           (Broken r))) as (Hu & Ht & Hb & Hd).
      rewrite Hu, Ht, Hb, Hd. cbn [Unsupported Total Broken dirs length].
      rewrite <- app_assoc. repeat split. lia.
    + match goal with |- context [groupLoop (S i) rest ?ra] =>
        destruct (IH (S i) ra) as (Hu & Ht & Hb & Hd) end.
      rewrite Hu, Ht, Hb, Hd. done.
Qed.

(** X12. The grouping loop reports every rule without product in
    [Unsupported], with the reason "Missing PRODUCT in LOGSOURCE" and in the
    order of the rules, and takes one off [Total] for each; [Broken] and the
    directories stay as they are. *)
Theorem groupLoop_missing_product (rules : list Rule) (i : nat) (r : Ruleset) :
  Unsupported (groupLoop i rules r) = Unsupported r ++ missingProducts i rules /\
  Total (groupLoop i rules r) =
    (Total r - Z.of_nat (length (missingProducts i rules)))%Z /\
  Broken (groupLoop i rules r) = Broken r /\
  dirs (groupLoop i rules r) = dirs r.
Proof. exact (groupLoop_fields rules i r). Qed.

Lemma grouped_insert_fresh (m : RuleMap) (k : string) (g : RuleGroup) :
  m !! k = None -> grouped (<[k := g]> m) = length g + grouped m.
Proof.
  intros Hk. unfold grouped, RuleMap in *.
  rewrite (map_fold_insert_L
             (fun (_ : string) (g0 : RuleGroup) (n : nat) => length g0 + n)
             0 k g m); [reflexivity | intros; lia | exact Hk].
Qed.

Lemma grouped_insert (m : RuleMap) (k : string) (g : RuleGroup) :
  grouped (<[k := g]> m) + match m !! k with Some g0 => length g0 | None => 0 end
    = length g + grouped m.
Proof.
  destruct (m !! k) as [g0|] eqn:Hk.
  - assert (Hfresh : delete k m !! k = None)
      by (unfold RuleMap in *; apply lookup_delete_eq).
    assert (Hg : <[k := g]> m = <[k := g]> (delete k m))
      by (unfold RuleMap in *; symmetry; apply insert_delete_eq).
    assert (Hm : m = <[k := g0]> (delete k m))
      by (unfold RuleMap in *; symmetry; by apply insert_delete_id).
    rewrite Hg. rewrite Hm at 2.
    rewrite !grouped_insert_fresh by exact Hfresh. lia.
  - rewrite grouped_insert_fresh by exact Hk. lia.
Qed.

(** Every rule the grouping loop meets is counted once: in a group, or off
    [Total]. *)
Lemma groupLoop_total (rules : list Rule) (i : nat) (r : Ruleset) :
  (Total (groupLoop i rules r) - Z.of_nat (grouped (Rules (groupLoop i rules r)))
   = Total r - Z.of_nat (grouped (Rules r)) - Z.of_nat (length rules))%Z.
Proof.
  revert i r. induction rules as [|rule rest IH]; intros i r.
  - cbn. lia.
  - cbn [groupLoop]. fold (product rule).
    destruct (decide (product rule = "")) as [Hp|Hp]; rewrite IH;
      cbn [Total Rules length].
    + lia.
    + match goal with |- context [grouped (<[?k := ?g]> ?m)] =>
        pose proof (grouped_insert m k g) as Hg;
        change (grouped (insert k g m)) with (grouped (<[k := g]> m)) in Hg;
        generalize dependent (grouped (<[k := g]> m))
      end.
      intros n Hg.
      destruct (Rules r !! product rule) as [g0|];
        [rewrite length_app in Hg|]; cbn [length] in Hg; lia.
Qed.

End LoadingRules.

(* ===================================================================== *)
(** ** Loading rules: the rule set as a whole *)
(* ===================================================================== *)

Section WholeRuleset.
Context `{SigmaEnv}.

Lemma RuleMap_lookup_empty (k : string) : (∅ : RuleMap) !! k = None.
Proof. unfold RuleMap. apply lookup_empty. Qed.

Lemma grouped_empty : grouped (∅ : RuleMap) = 0.
Proof. unfold grouped, RuleMap. apply map_fold_empty. Qed.

(** [NewRuleset] with its four loops in closed form. *)
Lemma NewRuleset_result (c : Config.t) :
  NewRuleset c =
    match Validate c with
    | (c', Some err) => Returned (c', None, Some err)
    | (c', None) =>
        match discoverRuleFilesInDir (Config.Directories c') with
        | Panicked msg => Panicked msg
        | Returned (_, Some err) => Returned (c', None, Some err)
        | Returned (files, None) =>
            match head (omap fileFails files) with
            | Some err => Returned (c', None, Some err)
            | None =>
                let decoded :=
                  map decodedRule
                      (List.filter (fun path => negb (isMultiPart path)) files) in
                let rules := omap compiledOf (routes 0 decoded) in
                let unsupported :=
                  map multiPartEntry (List.filter isMultiPart files)
                  ++ omap unsupportedOf (routes 0 decoded) in
                let broken := omap brokenOf (routes 0 decoded) in
                if Nat.eqb (length rules) 0 then
                  Returned
                    (c',
                     Some (mkRuleset (Config.Directories c') ∅ 0 unsupported broken),
                     Some (Errorf "unable to parse any rules from %+v"
                             [ArgStrs (Config.Directories c')]))
                else
                  Returned
                    (c',
                     Some (groupLoop 0 rules
                             (mkRuleset (Config.Directories c') ∅
                                (Z.of_nat (length rules)) unsupported broken)),
                     None)
            end
        end
    end.
Proof.
  unfold NewRuleset. destruct (Validate c) as [c' [err|]]; [reflexivity|].
  cbn [dirs]. destruct (discoverRuleFilesInDir _) as [[files [err|]]|msg];
    [reflexivity| |reflexivity].
  rewrite fileloop_closed_form.
  destruct (head (omap fileFails files)) as [err|]; [reflexivity|].
  rewrite decodedloop_routes. cbn [app dirs Rules Total Unsupported Broken].
  reflexivity.
Qed.



(** X14. In every rule set that [NewRuleset] returns, [Total] is the number
    of rules held in the groups, no group is filed under the empty product,
    no group is empty, and every rule of a group has the product the group
    is filed under. *)
Theorem NewRuleset_total_counts_grouped (c : Config.t) :
  match NewRuleset c with
  | Returned (_, Some r, _) =>
      Total r = Z.of_nat (grouped (Rules r)) /\
      Rules r !! "" = None /\
      forall k g, Rules r !! k = Some g ->
                  g <> [] /\ Forall (fun rule => product rule = k) g
  | Returned (_, None, _) => True
  | Panicked _ => True
  end.
Proof.
  rewrite NewRuleset_result.
  destruct (Validate c) as [c' [err|]]; [exact I|].
  destruct (discoverRuleFilesInDir _) as [[files [err|]]|msg];
    [exact I| |exact I].
  destruct (head (omap fileFails files)) as [err|]; [exact I|].
  cbv zeta. destruct (Nat.eqb _ 0).
  - cbn [Total Rules]. rewrite grouped_empty.
    split; [reflexivity|]. split; [apply RuleMap_lookup_empty|].
    intros k g Hk. rewrite RuleMap_lookup_empty in Hk. discriminate.
  - match goal with |- context [groupLoop 0 ?rs ?ra] =>
      pose proof (groupLoop_total rs 0 ra) as Htotal;
      pose proof (fun k => groupLoop_lookup rs 0 ra k) as Hgroups;
      generalize dependent (groupLoop 0 rs ra)
    end.
    intros r Htotal Hgroups. cbn [Total Rules] in *. split; [|split].
    + rewrite grouped_empty in Htotal. lia.
    + rewrite Hgroups, decide_True by reflexivity. apply RuleMap_lookup_empty.
    + intros k g. rewrite Hgroups. destruct (decide (k = "")) as [->|Hk].
      * rewrite RuleMap_lookup_empty. discriminate.
      * rewrite RuleMap_lookup_empty.
        match goal with |- context [List.filter (hasProduct k) ?rs] =>
          pose proof (fun x => proj1 (filter_In (hasProduct k) x rs)) as Hin;
          destruct (List.filter (hasProduct k) rs) as [|x g']
        end; [discriminate|].
        intros [= <-]. split; [discriminate|].
        apply Forall_forall. intros rule Hrule.
        apply list_elem_of_In, Hin in Hrule as [_ Hrule].
        unfold hasProduct in Hrule. by apply bool_decide_eq_true in Hrule.
Qed.

Lemma Raw_without_data (u : UnsupportedRawRule.t) :
  UnsupportedRawRule.data u = None ->
  Raw u = String.append "missing data for unsupported rule "
                        (UnsupportedRawRule.Path u).
Proof. unfold Raw. intros ->. reflexivity. Qed.

Lemma routes_no_data (decoded : list Rule) (i : nat) :
  Forall (fun u => UnsupportedRawRule.data u = None)
         (omap unsupportedOf (routes i decoded)) /\
  Forall (fun u => UnsupportedRawRule.data u = None)
         (omap brokenOf (routes i decoded)).
Proof.
  revert i. induction decoded as [|dec rest IH]; intros i; [split; constructor|].
  destruct (IH (S i)) as [Hu Hb]. cbn [routes omap list_omap]. unfold route.
  destruct (ParseDetection _) as [tree [err|]]; [|split; assumption].
  destruct (isUnsupportedError err); cbn; split;
    try assumption; constructor; try assumption; reflexivity.
Qed.

Lemma missingProducts_no_data (rules : list Rule) (i : nat) :
  Forall (fun u => UnsupportedRawRule.data u = None) (missingProducts i rules).
Proof.
  revert i. induction rules as [|rule rest IH]; intros i; [constructor|].
  cbn [missingProducts]. destruct (decide (product rule = ""));
    [constructor; [reflexivity|]|]; apply IH.
Qed.

(** X15. No entry that [NewRuleset] puts into [Unsupported] or [Broken]
    carries the bytes of its rule, so [Raw] of every such entry is the
    "missing data for unsupported rule" message with the path. *)
Theorem NewRuleset_entries_have_no_data (c : Config.t) :
  match NewRuleset c with
  | Returned (_, Some r, _) =>
      Forall (fun u =>
                Raw u = String.append "missing data for unsupported rule "
                                      (UnsupportedRawRule.Path u))
             (Unsupported r ++ Broken r)
  | Returned (_, None, _) => True
  | Panicked _ => True
  end.
Proof.
  rewrite NewRuleset_result.
  destruct (Validate c) as [c' [err|]]; [exact I|].
  destruct (discoverRuleFilesInDir _) as [[files [err|]]|msg];
    [exact I| |exact I].
  destruct (head (omap fileFails files)) as [err|]; [exact I|].
  cbv zeta.
  assert (Hmulti : forall fs,
            Forall (fun u => UnsupportedRawRule.data u = None)
                   (map multiPartEntry fs)).
  { intros fs. apply Forall_forall. intros u Hu.
    apply list_elem_of_fmap in Hu as [path [-> _]]. reflexivity. }
  match goal with |- context [routes 0 ?ds] =>
    destruct (routes_no_data ds 0) as [Hu Hb] end.
  destruct (Nat.eqb _ 0).
  - cbn [Unsupported Broken]. eapply Forall_impl;
      [|intros u; apply Raw_without_data].
    rewrite !Forall_app. auto.
  - match goal with |- context [groupLoop 0 ?rs ?ra] =>
      destruct (groupLoop_fields rs 0 ra) as (Hun & _ & Hbr & _);
      pose proof (missingProducts_no_data rs 0) as Hmiss
    end.
    rewrite Hun, Hbr. cbn [Unsupported Broken]. eapply Forall_impl;
      [|intros u; apply Raw_without_data].
    rewrite !Forall_app. auto.
Qed.

(** X16. The lists of a returned rule set, in order: [Broken] holds the
    entries of the decoded rules with a broken detection; [Unsupported]
    holds the multi-part files, then the decoded rules with an unsupported
    construct, then the compiled rules without product. *)
Theorem NewRuleset_lists (c : Config.t) :
  match NewRuleset c with
  | Returned (c', Some r, _) =>
      exists files decoded,
        discoverRuleFilesInDir (Config.Directories c') =
          Returned (files, None) /\
        decoded = map decodedRule
                      (List.filter (fun path => negb (isMultiPart path)) files) /\
        Broken r = omap brokenOf (routes 0 decoded) /\
        Unsupported r =
          map multiPartEntry (List.filter isMultiPart files)
          ++ omap unsupportedOf (routes 0 decoded)
          ++ missingProducts 0 (omap compiledOf (routes 0 decoded))
  | Returned (_, None, _) => True
  | Panicked _ => True
  end.
Proof.
  rewrite NewRuleset_result.
  destruct (Validate c) as [c' [err|]]; [exact I|].
  destruct (discoverRuleFilesInDir _) as [[files [err|]]|msg] eqn:Hfiles;
    [exact I| |exact I].
  destruct (head (omap fileFails files)) as [err|]; [exact I|].
  cbv zeta. destruct (Nat.eqb _ 0) eqn:Hnone.
  - eexists files, _. split; [exact Hfiles|]. split; [reflexivity|].
    cbn [Broken Unsupported]. split; [reflexivity|].
    apply Nat.eqb_eq, nil_length_inv in Hnone. rewrite Hnone. cbn.
    rewrite app_nil_r. reflexivity.
  - eexists files, _. split; [exact Hfiles|]. split; [reflexivity|].
    match goal with |- context [groupLoop 0 ?rs ?ra] =>
      destruct (groupLoop_fields rs 0 ra) as (Hun & _ & Hbr & _) end.
    rewrite Hun, Hbr. cbn [Broken Unsupported]. rewrite <- app_assoc. done.
Qed.

End WholeRuleset.

(* ===================================================================== *)
(** ** More on the validator and on [run] *)
(* ===================================================================== *)

Section ValidatorOutcomes.
Context `{Externals}.

Lemma receive_drained (p : parser) :
  lex p = Some (mkLexer []) -> receive [] p = p.
Proof. destruct p as [lx ts prev d cond rs]. cbn. intros ->. reflexivity. Qed.

(** Scanning a stream in two parts. *)
Lemma collectLoop_app (pre post : list Item) (p p1 : parser) :
  collectLoop pre p = (p1, Ret tt) ->
  collectLoop (pre ++ post) p = collectLoop post p1.
Proof.
  revert p. induction pre as [|a pre IH]; intros p.
  - cbn [collectLoop app]. intros [= <-]. symmetry. apply collectLoop_receive.
  - cbn [app]. rewrite !collectLoop_cons.
    destruct (decide (T a = TokUnsupp)); [discriminate|].
    destruct (negb (validTokenSequence (previous p) (T a))); [discriminate|].
    apply IH.
Qed.

(** X17. When the validator gets as far as an item whose kind may not
    follow the kind before it, it returns the "invalid token sequence"
    error with the two kinds and the raw text of the item; the collected
    tokens are those of the items before it, and the items after it are
    left in the lexer. *)
Theorem invalid_sequence_reported (p : parser) (l : lexer)
    (pre post : list Item) (item : Item) :
  lex p = Some l ->
  items l = pre ++ item :: post ->
  TokUnsupp ∉ map T pre ->
  adjacent_ok (previous p) (map T pre) = true ->
  T item <> TokUnsupp ->
  validTokenSequence (default (previous p) (last (map T pre))) (T item) = false ->
  exists p',
    collectAndValidateTokenSequences p =
      (p', Fail (Errorf "invalid token sequence %s -> %s. Value: %s"
                   [ArgTok (default (previous p) (last (map T pre)));
                    ArgTok (T item); ArgStr (Val item)])) /\
    ptokens p' = ptokens p ++ collected pre /\
    lex p' = Some (mkLexer post).
Proof.
  intros Hlex Hitems Hu Hadj Hitem Hbad.
  assert (Hacc : snd (collectLoop pre p) = Ret tt)
    by (apply collectLoop_accepts; split; assumption).
  destruct (collectLoop pre p) as [p1 o] eqn:Hpre.
  cbn [snd] in Hacc. subst o.
  exists (receive post p1).
  unfold collectAndValidateTokenSequences. rewrite Hlex, Hitems.
  rewrite (collectLoop_app pre (item :: post) p p1 Hpre), collectLoop_cons.
  apply collectLoop_state in Hpre as (Ht & Hp & _).
  rewrite decide_False by exact Hitem. rewrite Hp, Hbad. cbn [negb].
  repeat split. exact Ht.
Qed.

Lemma collectLoop_prefix (its : list Item) (p : parser) :
  exists pre rest,
    its = pre ++ rest /\
    ptokens (fst (collectLoop its p)) = ptokens p ++ collected pre /\
    sigma (fst (collectLoop its p)) = sigma p /\
    condition (fst (collectLoop its p)) = condition p /\
    rules (fst (collectLoop its p)) = rules p /\
    match snd (collectLoop its p) with
    | Ret _ => rest = []
    | Fail _ => rest <> []
    | Panic _ => False
    end.
Proof.
  revert p. induction its as [|item its IH]; intros p.
  - exists [], []. cbn. rewrite app_nil_r. done.
  - rewrite collectLoop_cons.
    destruct (decide (T item = TokUnsupp));
      [exists [], (item :: its); cbn; rewrite app_nil_r; done|].
    destruct (negb (validTokenSequence (previous p) (T item)));
      [exists [], (item :: its); cbn; rewrite app_nil_r; done|].
    destruct (IH (collect item p)) as (pre & rest & -> & Ht & Hs & Hc & Hr & Ho).
    exists (item :: pre), rest. split; [reflexivity|].
    rewrite Ht, Hs, Hc, Hr, collected_cons. repeat split; [|exact Ho].
    unfold collect; cbn [ptokens].
    destruct (decide (T item <> LitEof)); [rewrite <- app_assoc|]; reflexivity.
Qed.

(** X18. Whatever the outcome, a parser with a lexer comes out of the
    validator with the same detection map, condition and rules, and with
    the tokens it had followed by the items, [Eof] apart, of a prefix of the
    lexer's stream, which after a success is the whole stream.  The
    validator does not panic. *)
Theorem validator_collects_a_prefix (p : parser) (l : lexer) :
  lex p = Some l ->
  exists pre rest,
    items l = pre ++ rest /\
    ptokens (fst (collectAndValidateTokenSequences p)) =
      ptokens p ++ collected pre /\
    sigma (fst (collectAndValidateTokenSequences p)) = sigma p /\
    condition (fst (collectAndValidateTokenSequences p)) = condition p /\
    rules (fst (collectAndValidateTokenSequences p)) = rules p /\
    match snd (collectAndValidateTokenSequences p) with
    | Ret _ => rest = []
    | Fail _ => True
    | Panic _ => False
    end.
Proof.
  intros Hlex. unfold collectAndValidateTokenSequences. rewrite Hlex.
  destruct (collectLoop_prefix (items l) p)
    as (pre & rest & Hits & Ht & Hs & Hc & Hr & Ho).
  exists pre, rest. split; [exact Hits|].
  destruct (collectLoop (items l) p) as [p' [[]|e|msg]]; cbn [fst snd] in *;
    [|done..].
  destruct (decide (previous p' <> LitEof)); cbn [fst snd]; done.
Qed.

(** X19. Validating again after a success changes nothing and succeeds
    again: the lexer is drained and the last kind seen is still [Eof]. *)
Theorem validation_repeats (p p' : parser) :
  collectAndValidateTokenSequences p = (p', Ret tt) ->
  collectAndValidateTokenSequences p' = (p', Ret tt).
Proof.
  unfold collectAndValidateTokenSequences at 1.
  destruct (lex p) as [l|]; [|discriminate].
  destruct (collectLoop (items l) p) as [p1 [[]|e|msg]] eqn:Hloop;
    [|discriminate..].
  destruct (decide (previous p1 <> LitEof)) as [Hne|Heof]; [discriminate|].
  intros [= <-]. apply collectLoop_state in Hloop as (_ & _ & Hlex & _).
  unfold collectAndValidateTokenSequences. rewrite Hlex.
  cbn [items collectLoop]. rewrite (receive_drained p1 Hlex).
  rewrite decide_False by exact Heof. reflexivity.
Qed.

(** X20. [run] never reports success.  With no lexer it returns the "lexer
    not initialized" error and leaves the parser as it is; when the
    validation does not succeed it returns the state and the error of the
    validator; and after a successful validation it ends in the error or
    the panic of [parseSearch] on the collected tokens, the detection map and
    the zero configuration. *)
Theorem run_never_succeeds (p : parser) :
  succeeded (snd (run p)) = false /\
  (lex p = None ->
   run p =
     (p, Fail (Errorf "cannot run condition parser, lexer not initialized" []))) /\
  (succeeded (snd (collectAndValidateTokenSequences p)) = false ->
   lex p <> None ->
   run p = collectAndValidateTokenSequences p) /\
  (forall p', collectAndValidateTokenSequences p = (p', Ret tt) ->
     (exists e,
        snd (parseSearch (ptokens p') (rule.mkConfig false) (sigma p')) = Fail e /\
        run p =
          (with_sigma
             (fst (parseSearch (ptokens p') (rule.mkConfig false) (sigma p'))) p',
           Fail e)) \/
     (exists msg,
        snd (parseSearch (ptokens p') (rule.mkConfig false) (sigma p')) = Panic msg /\
        run p =
          (with_sigma
             (fst (parseSearch (ptokens p') (rule.mkConfig false) (sigma p'))) p',
           Panic msg))).
Proof.
  split; [|split; [|split]].
  - pose proof (run_returns_error p) as Hno.
    destruct (snd (run p)) as [[]|e|msg]; [|reflexivity..].
    exfalso. apply Hno. reflexivity.
  - unfold run. intros ->. reflexivity.
  - unfold run. destruct (lex p); [|intros _ Hnil; contradiction].
    destruct (collectAndValidateTokenSequences p) as [p' [[]|e|msg]];
      [discriminate | reflexivity..].
  - intros p' Hok. unfold run.
    destruct (lex p) as [l|] eqn:Hlex.
    + rewrite Hok.
      pose proof (parseSearch_returns_no_branch (ptokens p')
                    (rule.mkConfig false) (sigma p')) as Hno.
      destruct (parseSearch (ptokens p') (rule.mkConfig false) (sigma p'))
        as [d' [b|e|msg]]; cbn [fst snd] in *.
      * exfalso. exact (Hno b eq_refl).
      * left. exists e. split; reflexivity.
      * right. exists msg. split; reflexivity.
    + unfold collectAndValidateTokenSequences in Hok. rewrite Hlex in Hok.
      discriminate Hok.
Qed.

(** X21. [run] leaves the detection map of the parser as it was, provided
    the leaf builder only reads. *)
Theorem run_leaves_detection_unchanged (p : parser) :
  (forall (e : option SearchExpr) (lower : bool) (d : Detection),
     fst (newRuleMatcherFromIdent e lower d) = d) ->
  sigma (fst (run p)) = sigma p.
Proof.
  intros Hframe. unfold run. destruct (lex p) as [l|] eqn:Hlex; [|reflexivity].
  assert (Hs : sigma (fst (collectAndValidateTokenSequences p)) = sigma p).
  { unfold collectAndValidateTokenSequences. rewrite Hlex.
    destruct (collectLoop_prefix (items l) p) as (pre & rest & _ & _ & Hs & _).
    destruct (collectLoop (items l) p) as [p1 [[]|e|msg]]; cbn [fst] in *;
      [|exact Hs..].
    destruct (decide (previous p1 <> LitEof)); exact Hs. }
  destruct (collectAndValidateTokenSequences p) as [p' [[]|e|msg]];
    cbn [fst] in *; try exact Hs.
  pose proof (parseSearch_frame Hframe (ptokens p') (rule.mkConfig false)
                (sigma p')) as Hparse.
  destruct (parseSearch _ _ _) as [d' [b|e|msg]]; cbn [fst] in *;
    subst d'; exact Hs.
Qed.

End ValidatorOutcomes.


(* ===================================================================== *)
(** ** More on the scan of [parseSimpleSearch] *)
(* ===================================================================== *)

Section SimpleSearch.
Context `{Externals}.

Lemma countKind_cons (k : Token) (item : Item) (t : tokens) :
  countKind k (item :: t) =
    (if decide (T item = k) then 1 else 0) + countKind k t.
Proof.
  unfold countKind. rewrite filter_cons.
  destruct (decide (T item = k)); reflexivity.
Qed.

Lemma bind_assoc {A B C} (m : M A) (f : A -> M B) (g : B -> M C)
    (d : Detection) :
  bind (bind m f) g d = bind m (fun a => bind (f a) g) d.
Proof. unfold bind. destruct (m d) as [d' [a|e|msg]]; reflexivity. Qed.

Lemma bind_ext {A B} (m : M A) (f g : A -> M B) (d : Detection) :
  (forall a d', f a d' = g a d') -> bind m f d = bind m g d.
Proof.
  intros Hfg. unfold bind. destruct (m d) as [d' [a|e|msg]];
    [apply Hfg | reflexivity..].
Qed.

(** Scanning a stream in two parts: the second part starts from the flag,
    the operands and the operators the first part ends with. *)
Lemma parseSimpleLoop_app (t1 t2 : tokens) (c : rule.Config) (negated : bool)
    (rules : list Branch) (modifiers : list Token) (d : Detection) :
  parseSimpleLoop (t1 ++ t2) c negated rules modifiers d =
    bind (parseSimpleLoop t1 c negated rules modifiers)
         (fun st => parseSimpleLoop t2 c (fst (fst st)) (snd (fst st)) (snd st))
         d.
Proof.
  revert negated rules modifiers d.
  induction t1 as [|item rest IH]; intros negated rules modifiers d;
    [reflexivity|].
  cbn [app parseSimpleLoop]. destruct (T item); try apply IH.
  rewrite bind_assoc. apply bind_ext. intros e d1.
  rewrite bind_assoc. apply bind_ext. intros r d2. apply IH.
Qed.

Lemma parseSimpleLoop_counts (t : tokens) (c : rule.Config) (negated : bool)
    (rules : list Branch) (modifiers : list Token) (d : Detection)
    (negated' : bool) (rules' : list Branch) (modifiers' : list Token) :
  snd (parseSimpleLoop t c negated rules modifiers d) =
    Ret (negated', rules', modifiers') ->
  length rules' = length rules + countKind Identifier t /\
  (length rules <= length modifiers -> length rules' <= length modifiers') /\
  modifiers `prefix_of` modifiers'.
Proof.
  revert negated rules modifiers d.
  induction t as [|item rest IH]; intros negated rules modifiers d.
  - cbn. intros [= _ <- <-]. unfold countKind. cbn. split; [lia|]. done.
  - cbn [parseSimpleLoop]. rewrite countKind_cons.
    destruct (T item) eqn:Hkind;
      try (rewrite decide_False by discriminate; intros Hret;
           apply IH in Hret as (Hlen & Hle & Hpre); repeat split;
           [lia | exact Hle | exact Hpre]).
    + intros Hret.
      apply bind_Ret in Hret as (e & d1 & _ & Hret).
      apply bind_Ret in Hret as (r & d2 & _ & Hret).
      apply IH in Hret as (Hlen & Hle & Hpre).
      rewrite decide_True by reflexivity. rewrite length_app in Hlen, Hle.
      cbn [length] in Hlen, Hle. split; [lia|]. split.
      * intros Hinit. apply Hle.
        destruct (decide (Z.of_nat (length modifiers) - 1
                          <> Z.of_nat (length rules))%Z);
          [rewrite length_app; cbn [length]|]; lia.
      * etrans; [|exact Hpre].
        destruct (decide _); [by apply prefix_app_r | done].
    + rewrite decide_False by discriminate. intros Hret.
      apply IH in Hret as (Hlen & Hle & Hpre). split; [lia|]. split.
      * intros Hinit. apply Hle. rewrite length_app. cbn [length]. lia.
      * etrans; [|exact Hpre]. by apply prefix_app_r.
    + rewrite decide_False by discriminate. intros Hret.
      apply IH in Hret as (Hlen & Hle & Hpre). split; [lia|]. split.
      * intros Hinit. apply Hle. rewrite length_app. cbn [length]. lia.
      * etrans; [|exact Hpre]. by apply prefix_app_r.
Qed.

(** X22. When the scan of [parseSimpleSearch] comes to its end, it holds
    one operand for every identifier of the stream, at least as many
    operator slots as operands, and the first slot is still the [TokNil] it
    started with. *)
Theorem parseSimpleLoop_operands (t : tokens) (c : rule.Config)
    (d : Detection) (negated' : bool) (rules' : list Branch)
    (modifiers' : list Token) :
  snd (parseSimpleLoop t c false [] [TokNil] d) =
    Ret (negated', rules', modifiers') ->
  length rules' = countKind Identifier t /\
  length rules' <= length modifiers' /\
  head modifiers' = Some TokNil.
Proof.
  intros Hret. apply parseSimpleLoop_counts in Hret as (Hlen & Hle & [k ->]).
  cbn [length] in *. split; [lia|]. split; [apply Hle; lia | reflexivity].
Qed.

(** X23. An identifier that the leaf builder refuses ends the compilation
    with the builder's error, not with "WIP": when the scan of the tokens
    before the identifier comes to its end and the builder fails on the
    entry that [Get] returns for the identifier, [parseSimpleSearch] returns
    that failure. *)
Theorem parseSimpleSearch_builder_error (pre post : tokens) (item : Item)
    (c : rule.Config) (d d1 d2 : Detection)
    (st : bool * list Branch * list Token) (err : error) :
  T item = Identifier ->
  parseSimpleLoop pre c false [] [TokNil] d = (d1, Ret st) ->
  newRuleMatcherFromIdent
    ((fun v => mkSearchExpr (Val item) (classify (Val item)) v)
       <$> d1 !! Val item)
    (rule.LowerCase c) d1 = (d2, Fail err) ->
  parseSimpleSearch (pre ++ item :: post) c d = (d2, Fail err).
Proof.
  intros Hkind Hpre Hbuild. unfold parseSimpleSearch.
  unfold bind at 1. rewrite parseSimpleLoop_app. unfold bind at 1.
  rewrite Hpre. cbn [parseSimpleLoop]. rewrite Hkind.
  unfold bind at 1. pose proof (Get_result (Val item) d1) as Hget.
  pose proof (Get_frame (Val item) d1) as Hstate.
  destruct (Get (Val item) d1) as [d' o]. cbn [fst snd] in *. subst d' o.
  unfold bind at 1. rewrite Hbuild. reflexivity.
Qed.

(** X24. A run of [not] keywords before an identifier negates it once:
    the flag is set, not toggled, so ["not not A"] gives the same operand as
    ["not A"]. *)
Theorem repeated_not_negates_once (n : nat) (A : string) (c : rule.Config)
    (d d' : Detection) (r : Branch) :
  newRuleMatcherFromIdent
    ((fun v => mkSearchExpr A (classify A) v) <$> d !! A)
    (rule.LowerCase c) d = (d', Ret r) ->
  parseSimpleLoop (replicate (S n) kwNot ++ [ident A]) c false [] [TokNil] d =
    (d', Ret (false, [NodeNot r], [TokNil])).
Proof.
  intros Hbuild.
  assert (Hgen : forall m negated,
            parseSimpleLoop (replicate m kwNot ++ [ident A]) c negated []
                            [TokNil] d =
              (d', Ret (false,
                        [if negated || negb (Nat.eqb m 0) then NodeNot r else r],
                        [TokNil]))).
  { induction m as [|m IH]; intros negated.
    - cbn [replicate app parseSimpleLoop ident T Val].
      unfold bind at 1. pose proof (Get_result A d) as Hget.
      pose proof (Get_frame A d) as Hstate.
      destruct (Get A d) as [d0 o]. cbn [fst snd] in *. subst d0 o.
      unfold bind at 1. rewrite Hbuild. cbn. rewrite orb_false_r. reflexivity.
    - cbn [replicate app parseSimpleLoop kwNot T]. rewrite IH.
      cbn [Nat.eqb negb orb]. rewrite orb_true_r. reflexivity. }
  rewrite Hgen. reflexivity.
Qed.

End SimpleSearch.

(* ===================================================================== *)
(** ** More worked examples *)
(* ===================================================================== *)

Section MoreExamples.
#[local] Existing Instance sampleExternals.
#[local] Existing Instance sampleFileEnv.

(** ["selection keyword"] of the test data: two identifiers in a row. *)
Lemma invalid_sequence_witness :
  exists p',
    collectAndValidateTokenSequences
      (freshParser [ident "selection"; ident "keyword"; eof] ∅ "") =
      (p', Fail (Errorf "invalid token sequence %s -> %s. Value: %s"
                   [ArgTok Identifier; ArgTok Identifier; ArgStr "keyword"])) /\
    ptokens p' = [ident "selection"] /\
    lex p' = Some (mkLexer [eof]).
Proof.
  refine (@invalid_sequence_reported sampleExternals
            (freshParser [ident "selection"; ident "keyword"; eof] ∅ "")
            (mkLexer [ident "selection"; ident "keyword"; eof])
            [ident "selection"] [eof] (ident "keyword")
            eq_refl eq_refl _ eq_refl _ eq_refl).
  - intros Hin. apply list_elem_of_singleton in Hin. discriminate Hin.
  - discriminate.
Defined.

Lemma validator_prefix_witness :
  exists pre rest,
    [ident "selection"; ident "keyword"; eof] = pre ++ rest /\
    ptokens (fst (collectAndValidateTokenSequences
                    (freshParser [ident "selection"; ident "keyword"; eof]
                                 detectionABC "c"))) = [] ++ collected pre /\
    sigma (fst (collectAndValidateTokenSequences
                  (freshParser [ident "selection"; ident "keyword"; eof]
                               detectionABC "c"))) = detectionABC /\
    condition (fst (collectAndValidateTokenSequences
                      (freshParser [ident "selection"; ident "keyword"; eof]
                                   detectionABC "c"))) = "c" /\
    rules (fst (collectAndValidateTokenSequences
                  (freshParser [ident "selection"; ident "keyword"; eof]
                               detectionABC "c"))) = [] /\
    match snd (collectAndValidateTokenSequences
                 (freshParser [ident "selection"; ident "keyword"; eof]
                              detectionABC "c")) with
    | Ret _ => rest = []
    | Fail _ => True
    | Panic _ => False
    end.
Proof.
  exact (@validator_collects_a_prefix sampleExternals
           (freshParser [ident "selection"; ident "keyword"; eof]
                        detectionABC "c")
           (mkLexer [ident "selection"; ident "keyword"; eof]) eq_refl).
Defined.

Lemma validation_repeats_witness :
  collectAndValidateTokenSequences
    (freshParser (tokensABC ++ [eof]) detectionABC "") =
    (mkParser (Some (mkLexer [])) tokensABC LitEof detectionABC "" [], Ret tt) /\
  collectAndValidateTokenSequences
    (mkParser (Some (mkLexer [])) tokensABC LitEof detectionABC "" []) =
    (mkParser (Some (mkLexer [])) tokensABC LitEof detectionABC "" [], Ret tt).
Proof.
  assert (Hfirst : collectAndValidateTokenSequences
            (freshParser (tokensABC ++ [eof]) detectionABC "") =
            (mkParser (Some (mkLexer [])) tokensABC LitEof detectionABC "" [],
             Ret tt)) by reflexivity.
  split; [exact Hfirst|].
  exact (@validation_repeats sampleExternals _ _ Hfirst).
Defined.

Lemma run_detection_unchanged_witness :
  (forall e lower d, fst (sampleRuleMatcherFromIdent e lower d) = d) /\
  sigma (fst (run (freshParser (tokensABC ++ [eof]) detectionABC ""))) =
    detectionABC.
Proof.
  split; [exact sample_builder_frame|].
  exact (@run_leaves_detection_unchanged sampleExternals
           (freshParser (tokensABC ++ [eof]) detectionABC "")
           sample_builder_frame).
Defined.

Lemma parseSimpleLoop_operands_witness :
  snd (parseSimpleLoop tokensABC defaultConfig false [] [TokNil] detectionABC) =
    Ret (false,
         [Leaf (mkSearchExpr "A" ExprSelection (selection "Field1" "aaa")) false;
          Leaf (mkSearchExpr "B" ExprSelection (selection "Field2" "bbb")) false;
          Leaf (mkSearchExpr "C" ExprSelection (selection "Field3" "ccc")) false],
         [TokNil; KeywordOr; KeywordAnd]) /\
  3 = countKind Identifier tokensABC /\
  3 <= 3 /\
  head [TokNil; KeywordOr; KeywordAnd] = Some TokNil.
Proof.
  assert (Hscan :
    snd (parseSimpleLoop tokensABC defaultConfig false [] [TokNil] detectionABC) =
      Ret (false,
           [Leaf (mkSearchExpr "A" ExprSelection (selection "Field1" "aaa")) false;
            Leaf (mkSearchExpr "B" ExprSelection (selection "Field2" "bbb")) false;
            Leaf (mkSearchExpr "C" ExprSelection (selection "Field3" "ccc")) false],
           [TokNil; KeywordOr; KeywordAnd])) by (vm_compute; reflexivity).
  split; [exact Hscan|].
  exact (@parseSimpleLoop_operands sampleExternals tokensABC defaultConfig
           detectionABC _ _ _ Hscan).
Defined.

(** ["A and Z"] where the detection has no entry [Z]. *)
Lemma builder_error_witness :
  parseSimpleSearch [ident "A"; kwAnd; ident "Z"; kwOr; ident "B"]
                    defaultConfig detectionABC =
    (detectionABC,
     Fail (ErrValue (ErrIncompleteDetection "" [] "unknown identifier"))).
Proof.
  refine (@parseSimpleSearch_builder_error sampleExternals
            [ident "A"; kwAnd] [kwOr; ident "B"] (ident "Z") defaultConfig
            detectionABC detectionABC detectionABC
            (false,
             [Leaf (mkSearchExpr "A" ExprSelection (selection "Field1" "aaa"))
                   false],
             [TokNil; KeywordAnd])
            _ eq_refl _ _).
  - vm_compute. reflexivity.
  - vm_compute. reflexivity.
Defined.

(** ["not not A"]. *)
Lemma repeated_not_witness :
  parseSimpleLoop [kwNot; kwNot; ident "A"] defaultConfig false [] [TokNil]
                  detectionABC =
    (detectionABC,
     Ret (false,
          [NodeNot (Leaf (mkSearchExpr "A" ExprSelection
                                       (selection "Field1" "aaa")) false)],
          [TokNil])).
Proof.
  refine (@repeated_not_negates_once sampleExternals 1 "A" defaultConfig
            detectionABC detectionABC _ _).
  vm_compute. reflexivity.
Defined.

(** The directory [rules] of the sample environment: the multi-part file,
    the aggregation rule and the rule without product are unsupported, and
    the one rule left is filed under [windows]. *)
Example NewRuleset_sample_files :
  match NewRuleset (Config.mk ["rules"]) with
  | Returned (c', Some r, None) =>
      c' = Config.mk ["rules"] /\
      Total r = 1%Z /\
      map UnsupportedRawRule.Path (Unsupported r)
        = ["rules/multi.yml"; "rules/agg.yml"; "rules/nop.yml"] /\
      map UnsupportedRawRule.Reason (Unsupported r)
        = ["Multi-part YAML"; ""; "Missing PRODUCT in LOGSOURCE"] /\
      Broken r = [] /\
      map (fun kv : string * RuleGroup => (fst kv, map Path (snd kv)))
          (map_to_list (Rules r))
        = [("windows", ["rules/cmd.yml"])]
  | _ => False
  end.
Proof. vm_compute. repeat split. Qed.

(** A directory that does not exist: the walk hands the callback no
    [FileInfo], and the loader panics. *)
Example NewRuleset_missing_directory :
  NewRuleset (Config.mk ["nowhere"]) =
    Panicked "invalid memory address or nil pointer dereference".
Proof. vm_compute. reflexivity. Qed.

(** A directory that cannot be read: the error of the walk comes back and
    no rule set. *)
Example NewRuleset_unreadable_directory :
  NewRuleset (Config.mk ["locked"]) =
    Returned (Config.mk ["locked"], None,
              Some (ErrLibrary "permission denied")).
Proof. vm_compute. reflexivity. Qed.

Example Validate_expands_home :
  Validate (Config.mk ["~/rules"; "/etc/sigma"]) =
    (Config.mk ["/home/sigma/rules"; "/etc/sigma"], None).
Proof. vm_compute. reflexivity. Qed.

Example FieldSlice_detectionABC :
  snd (FieldSlice detectionABC) = Ret ["C"; "A"; "B"].
Proof. vm_compute. reflexivity. Qed.

End MoreExamples.
